(** * CloudMonitor check: the reporter of [src/index.js]

    A shallow embedding of the action's script: the JavaScript values it
    receives from the comparison API, the string operations it applies to
    them, the helper functions ([getInput], [parseCsv], [normalizeRisk],
    [icon], [annotationPrefix], [issueToMessage], [inferSeverityFromIssue])
    and [main] with its top-level [catch], followed by the properties of the
    specification stated over them. *)

From Stdlib Require Import List NArith ZArith Bool Lia String Ascii DecimalString.
Import ListNotations.

Set Warnings "-register-all".
Local Open Scope N_scope.

(** ** Strings

    A JavaScript string is a sequence of UTF-16 code units; [length],
    [slice], [split], [includes] and [===] all work on code units. *)

Definition jsstring : Type := list N.

(** An ASCII literal as a JavaScript string. *)
Definition js (s : string) : jsstring :=
  map N_of_ascii (list_ascii_of_string s).

Fixpoint str_eqb (a b : jsstring) : bool :=
  match a, b with
  | [], [] => true
  | x :: a', y :: b' => (x =? y) && str_eqb a' b'
  | _, _ => false
  end.

Fixpoint startsWith (s p : jsstring) : bool :=
  match p, s with
  | [], _ => true
  | y :: p', x :: s' => (x =? y) && startsWith s' p'
  | _ :: _, [] => false
  end.

(** [s.includes(p)] *)
Fixpoint includes (s p : jsstring) : bool :=
  startsWith s p ||
  match s with
  | [] => false
  | _ :: s' => includes s' p
  end.

Definition is_upper_ascii (c : N) : bool := (65 <=? c) && (c <=? 90).
Definition is_lower_ascii (c : N) : bool := (97 <=? c) && (c <=? 122).

(** [toLowerCase] on one code unit.  The Unicode mapping sends A-Z to a-z,
    the Kelvin sign U+212A to [k] and U+0130 to [i] followed by U+0307; every
    other character outside ASCII has a lower-case form outside ASCII.  The
    script only compares lower-cased text with ASCII words, so those units are
    kept as they are. *)
Definition lower_unit (c : N) : jsstring :=
  if is_upper_ascii c then [c + 32]
  else if c =? 8490 then [107]
  else if c =? 304 then [105; 775]
  else [c].

Definition toLowerCase (s : jsstring) : jsstring := flat_map lower_unit s.

(** [toUpperCase]: the script applies it to input names and to normalized
    risk levels only, which are ASCII. *)
Definition upper_unit (c : N) : N := if is_lower_ascii c then c - 32 else c.

Definition toUpperCase (s : jsstring) : jsstring := map upper_unit s.

(** White space and line terminators, as [String.prototype.trim] strips
    them. *)
Definition is_space (c : N) : bool :=
  ((9 <=? c) && (c <=? 13)) || (c =? 32) || (c =? 160) || (c =? 5760)
  || ((8192 <=? c) && (c <=? 8202)) || (c =? 8232) || (c =? 8233)
  || (c =? 8239) || (c =? 8287) || (c =? 12288) || (c =? 65279).

Fixpoint trimStart (s : jsstring) : jsstring :=
  match s with
  | [] => []
  | c :: s' => if is_space c then trimStart s' else s
  end.

Definition trimEnd (s : jsstring) : jsstring := rev (trimStart (rev s)).

Definition trim (s : jsstring) : jsstring := trimEnd (trimStart s).

(** [s.split(sep)] for a separator of one code unit: never an empty list. *)
Fixpoint split (sep : N) (s : jsstring) : list jsstring :=
  match s with
  | [] => [[]]
  | c :: s' =>
      if c =? sep then [] :: split sep s'
      else match split sep s' with
           | [] => [[c]]
           | p :: ps => (c :: p) :: ps
           end
  end.

(** [Array.prototype.join] on strings. *)
Fixpoint join (sep : jsstring) (l : list jsstring) : jsstring :=
  match l with
  | [] => []
  | [x] => x
  | x :: r => x ++ sep ++ join sep r
  end.

(** [name.replace(/ /g, "_")] *)
Definition replace_spaces (s : jsstring) : jsstring :=
  map (fun c => if c =? 32 then 95 else c) s.

(** [s.replace(/\/$/, "")]: one slash at the very end is removed. *)
Fixpoint strip_trailing_slash (s : jsstring) : jsstring :=
  match s with
  | [] => []
  | [c] => if c =? 47 then [] else [c]
  | c :: s' => c :: strip_trailing_slash s'
  end.

(** Decimal rendering of an integer below 10^21 in magnitude, as
    [String(n)] gives it.  The script's own numbers are such integers: the
    HTTP status, the lengths of arrays and the counters. *)
Definition Number_toString (n : Z) : jsstring :=
  js (NilZero.string_of_int (Z.to_int n)).

(** A number of the API's answer.  The script never computes with it: it
    tests it for truth and renders it as text.  It is kept as the decimal
    numeral [String] prints for it: an integer part with its sign, a
    fraction, and an exponent where the engine writes one ([1e+21],
    [1.5e-7]); [JSON.parse] also yields the two infinities, for a literal too
    large for a double.  A numeral [String] never prints (one with leading
    zeros, or [-0]) stands for no number. *)
Inductive number : Type :=
| Finite (d : Decimal.decimal)
| Infinite (negative : bool).

(** The number [n], for an integer below 10^21 in magnitude. *)
Definition integer (n : Z) : number :=
  Finite (Decimal.Decimal (Z.to_int n) Decimal.Nil).

Definition fraction_text (f : Decimal.uint) : jsstring :=
  match f with
  | Decimal.Nil => []
  | _ => js "." ++ js (NilEmpty.string_of_uint f)
  end.

Definition exponent_text (e : Decimal.signed_int) : jsstring :=
  match e with
  | Decimal.Pos u => js "e+" ++ js (NilZero.string_of_uint u)
  | Decimal.Neg u => js "e-" ++ js (NilZero.string_of_uint u)
  end.

(** [String(n)] for a number of the API. *)
Definition number_toString (n : number) : jsstring :=
  match n with
  | Finite (Decimal.Decimal i f) =>
      js (NilZero.string_of_int i) ++ fraction_text f
  | Finite (Decimal.DecimalExp i f e) =>
      js (NilZero.string_of_int i) ++ fraction_text f ++ exponent_text e
  | Infinite false => js "Infinity"
  | Infinite true => js "-Infinity"
  end.

(** Exceptions: the [Error]s the script throws with their message, and the
    engine's [TypeError]. *)
Inductive exn : Type :=
| Error (message : jsstring)
| TypeError.

(** What a function that can throw gives. *)
Inductive result (A : Type) : Type :=
| Ok (a : A)
| Raise (e : exn).
Arguments Ok {A} a.
Arguments Raise {A} e.

Definition rbind {A B} (r : result A) (k : A -> result B) : result B :=
  match r with
  | Ok a => k a
  | Raise e => Raise e
  end.

Notation "'let*' x ':=' r 'in' k" := (rbind r (fun x => k))
  (at level 10, x name, r at level 200, k at level 200).

(** [l.map(f)] for an [f] that can throw. *)
Fixpoint map_result {A B} (f : A -> result B) (l : list A) : result (list B) :=
  match l with
  | [] => Ok []
  | x :: r =>
      match f x with
      | Ok y =>
          match map_result f r with
          | Ok ys => Ok (y :: ys)
          | Raise e => Raise e
          end
      | Raise e => Raise e
      end
  end.

(** ** Values

    What [JSON.parse] can return, and [undefined] for what is absent.  An
    object holds its own properties under distinct names, in the order
    [Object.entries] lists them. *)

Inductive value : Type :=
| JUndefined
| JNull
| JBool (b : bool)
| JNum (n : number)
| JStr (s : jsstring)
| JArr (elems : list value)
| JObj (props : list (jsstring * value)).

(** Truthiness; of the numbers only zero is falsy, the one [String] prints
    as [0]. *)
Definition truthy (v : value) : bool :=
  match v with
  | JUndefined | JNull => false
  | JBool b => b
  | JNum n => negb (str_eqb (number_toString n) (js "0"))
  | JStr s => match s with [] => false | _ => true end
  | JArr _ | JObj _ => true
  end.

(** [a || b] *)
Definition or_else (a b : value) : value := if truthy a then a else b.

(** Whether an object has an own property named [k]. *)
Definition has_own (k : jsstring) (props : list (jsstring * value)) : bool :=
  existsb (fun p => str_eqb k (fst p)) props.

(** [String(v)], also what a template literal does to [v].  An array joins
    its elements with commas, rendering [null] and [undefined] elements as
    nothing.  An object goes through its [toString]: the one of
    [Object.prototype] gives [[object Object]]; an own property of that name
    hides it, holds no function (it came from JSON), and [valueOf] gives
    back the object, so the conversion throws a [TypeError]. *)
Fixpoint ToString (v : value) : result jsstring :=
  match v with
  | JUndefined => Ok (js "undefined")
  | JNull => Ok (js "null")
  | JBool true => Ok (js "true")
  | JBool false => Ok (js "false")
  | JNum n => Ok (number_toString n)
  | JStr s => Ok s
  | JArr l =>
      match map_result (fun x => match x with
                                 | JUndefined | JNull => Ok []
                                 | _ => ToString x
                                 end) l with
      | Ok texts => Ok (join (js ",") texts)
      | Raise e => Raise e
      end
  | JObj props =>
      if has_own (js "toString") props then Raise TypeError
      else Ok (js "[object Object]")
  end.

Fixpoint lookup (k : jsstring) (props : list (jsstring * value)) : value :=
  match props with
  | [] => JUndefined
  | (k', v) :: r => if str_eqb k k' then v else lookup k r
  end.

(** [v.k] for a [v] that is neither [null] nor [undefined].  None of the
    names the script reads ([risk], [pairs], [message], [title], [severity],
    [issues]) is defined on the prototype of a string, number, boolean, array
    or object, so only an object's own properties answer. *)
Definition get (v : value) (k : jsstring) : value :=
  match v with
  | JObj props => lookup k props
  | _ => JUndefined
  end.

(** [v?.k] *)
Definition get_opt (v : value) (k : jsstring) : value :=
  match v with
  | JUndefined | JNull => JUndefined
  | _ => get v k
  end.

Definition isArray (v : value) : bool :=
  match v with JArr _ => true | _ => false end.

(** Induction on a value through its elements and properties. *)
Section value_induction.

Variable P : value -> Prop.
Hypothesis P_undefined : P JUndefined.
Hypothesis P_null : P JNull.
Hypothesis P_bool : forall b, P (JBool b).
Hypothesis P_num : forall n, P (JNum n).
Hypothesis P_str : forall s, P (JStr s).
Hypothesis P_arr : forall l, Forall P l -> P (JArr l).
Hypothesis P_obj : forall props, Forall (fun p => P (snd p)) props -> P (JObj props).

Fixpoint value_induction (v : value) : P v :=
  match v with
  | JUndefined => P_undefined
  | JNull => P_null
  | JBool b => P_bool b
  | JNum n => P_num n
  | JStr s => P_str s
  | JArr l =>
      P_arr l
        ((fix all (l : list value) : Forall P l :=
            match l with
            | [] => Forall_nil P
            | x :: r => Forall_cons x (value_induction x) (all r)
            end) l)
  | JObj props =>
      P_obj props
        ((fix all (ps : list (jsstring * value))
            : Forall (fun p => P (snd p)) ps :=
            match ps with
            | [] => Forall_nil _
            | (k, x) :: r =>
                Forall_cons (P := fun p => P (snd p)) (k, x)
                  (value_induction x) (all r)
            end) props)
  end.

End value_induction.

(** ** The helper functions of index.js *)

Definition severityRank (k : jsstring) : option Z :=
  if str_eqb k (js "low") then Some 1%Z
  else if str_eqb k (js "medium") then Some 2%Z
  else if str_eqb k (js "high") then Some 3%Z
  else None.

Definition parseCsv (input : jsstring) : list jsstring :=
  filter (fun s => truthy (JStr s)) (map trim (split 44 input)).

Definition is_level (r : jsstring) : bool :=
  str_eqb r (js "high") || str_eqb r (js "medium") || str_eqb r (js "low").

(** Lines 18-20 of [normalizeRisk], on the text [String] gave. *)
Definition normalize_text (s : jsstring) : jsstring :=
  let r := toLowerCase s in
  if is_level r then r else js "low".

Definition normalizeRisk (risk : value) : result jsstring :=
  let* s := ToString (or_else risk (JStr [])) in
  Ok (normalize_text s).

Definition icon (risk : jsstring) : jsstring :=
  if str_eqb risk (js "high") then [10006]
  else if str_eqb risk (js "medium") then [9888]
  else [10004].

Definition annotationPrefix (sev : jsstring) : jsstring :=
  if str_eqb sev (js "high") then js "::error::"
  else if str_eqb sev (js "medium") then js "::warning::"
  else js "::notice::".

(** *** JSON.stringify *)

Definition hex_digit (n : N) : N := if n <? 10 then 48 + n else 87 + n.

Definition unicode_escape (c : N) : jsstring :=
  [92; 117; hex_digit (c / 4096 mod 16); hex_digit (c / 256 mod 16);
   hex_digit (c / 16 mod 16); hex_digit (c mod 16)].

Definition is_high_surrogate (c : N) : bool := (55296 <=? c) && (c <=? 56319).
Definition is_low_surrogate (c : N) : bool := (56320 <=? c) && (c <=? 57343).

Fixpoint quote_units (s : jsstring) : jsstring :=
  match s with
  | [] => []
  | c :: s' =>
      if c =? 8 then [92; 98] ++ quote_units s'
      else if c =? 9 then [92; 116] ++ quote_units s'
      else if c =? 10 then [92; 110] ++ quote_units s'
      else if c =? 12 then [92; 102] ++ quote_units s'
      else if c =? 13 then [92; 114] ++ quote_units s'
      else if c =? 34 then [92; 34] ++ quote_units s'
      else if c =? 92 then [92; 92] ++ quote_units s'
      else if c <? 32 then unicode_escape c ++ quote_units s'
      else if is_high_surrogate c then
        match s' with
        | d :: s'' =>
            if is_low_surrogate d then c :: d :: quote_units s''
            else unicode_escape c ++ quote_units s'
        | [] => unicode_escape c
        end
      else if is_low_surrogate c then unicode_escape c ++ quote_units s'
      else c :: quote_units s'
  end.

Definition QuoteJSONString (s : jsstring) : jsstring :=
  [34] ++ quote_units s ++ [34].

(** The text of a value, [None] where JSON.stringify gives [undefined]. *)
Fixpoint SerializeJSON (v : value) : option jsstring :=
  match v with
  | JUndefined => None
  | JNull => Some (js "null")
  | JBool true => Some (js "true")
  | JBool false => Some (js "false")
  | JNum (Infinite _) => Some (js "null")
  | JNum n => Some (number_toString n)
  | JStr s => Some (QuoteJSONString s)
  | JArr l =>
      Some (js "[" ++
            join (js ",")
              (map (fun x => match SerializeJSON x with
                             | Some t => t
                             | None => js "null"
                             end) l)
            ++ js "]")
  | JObj props =>
      Some (js "{" ++
            join (js ",")
              ((fix members (ps : list (jsstring * value)) : list jsstring :=
                  match ps with
                  | [] => []
                  | (k, x) :: r =>
                      match SerializeJSON x with
                      | Some t => (QuoteJSONString k ++ js ":" ++ t) :: members r
                      | None => members r
                      end
                  end) props)
            ++ js "}")
  end.

Definition JSON_stringify (v : value) : value :=
  match SerializeJSON v with
  | Some s => JStr s
  | None => JUndefined
  end.

(** *** Issues *)

(** [typeof v === "object"] *)
Definition typeof_object (v : value) : bool :=
  match v with JNull | JArr _ | JObj _ => true | _ => false end.

Definition issueToMessage (issue : value) : result value :=
  match issue with
  | JStr s => Ok (JStr s)
  | _ =>
      if truthy issue && typeof_object issue then
        Ok (or_else (get issue (js "message"))
              (or_else (get issue (js "title")) (JSON_stringify issue)))
      else
        let* s := ToString issue in Ok (JStr s)
  end.

(** [v.toLowerCase()]: only a string has the method. *)
Definition call_toLowerCase (v : value) : result jsstring :=
  match v with
  | JStr s => Ok (toLowerCase s)
  | _ => Raise TypeError
  end.

Definition inferSeverityFromIssue (issue fallbackPairRisk : value)
  : result jsstring :=
  if truthy issue && typeof_object issue && truthy (get issue (js "severity"))
  then normalizeRisk (get issue (js "severity"))
  else
    let* message := issueToMessage issue in
    let* msg := call_toLowerCase message in
    if includes msg (js "missing snapshot for production")
       || includes msg (js "app_debug") then Ok (js "high")
    else if includes msg (js "missing env key")
            || includes msg (js "mismatch") then Ok (js "medium")
    else normalizeRisk fallbackPairRisk.

(** ** Effects

    What a run does to the outside world is a trace of events: lines on
    standard output and standard error, and requests sent.  A computation
    returns, leaves through [process.exit], or throws. *)

Record request : Type := {
  req_method : jsstring;
  req_url : jsstring;
  req_headers : list (jsstring * jsstring);
  req_body : value
}.

Inductive event : Type :=
| console_log (line : jsstring)
| console_error (line : jsstring)
| console_error_stack (e : exn)
| fetch_call (req : request).

Inductive outcome (A : Type) : Type :=
| Returned (a : A)
| Exited (code : Z)
| Thrown (e : exn).
Arguments Returned {A} a.
Arguments Exited {A} code.
Arguments Thrown {A} e.

Definition M (A : Type) : Type := (list event * outcome A)%type.

Definition ret {A} (a : A) : M A := ([], Returned a).

Definition bind {A B} (m : M A) (k : A -> M B) : M B :=
  match m with
  | (t, Returned a) => let (t', o) := k a in (t ++ t', o)
  | (t, Exited c) => (t, Exited c)
  | (t, Thrown e) => (t, Thrown e)
  end.

Notation "x <- m ;; k" := (bind m (fun x => k))
  (at level 61, m at next level, right associativity).
Notation "m ;; k" := (bind m (fun _ => k))
  (at level 61, right associativity).

Definition emit (e : event) : M unit := ([e], Returned tt).
Definition throw {A} (e : exn) : M A := ([], Thrown e).
Definition process_exit {A} (code : Z) : M A := ([], Exited code).

Definition lift {A} (r : result A) : M A :=
  match r with
  | Ok a => ret a
  | Raise e => throw e
  end.

(** [if (c) body] *)
Definition when (c : bool) (body : M unit) : M unit :=
  if c then body else ret tt.

(** [for (const x of l) body] *)
Fixpoint for_of {A} (l : list A) (body : A -> M unit) : M unit :=
  match l with
  | [] => ret tt
  | x :: r => body x ;; for_of r body
  end.

(** [v.k] where [v] may be [null] or [undefined]. *)
Definition member (v : value) (k : jsstring) : result value :=
  match v with
  | JUndefined | JNull => Raise TypeError
  | _ => Ok (get v k)
  end.

Fixpoint indexed (i : Z) (l : list value) : list (jsstring * value) :=
  match l with
  | [] => []
  | x :: r => (Number_toString i, x) :: indexed (i + 1)%Z r
  end.

(** [Object.entries(v)]: the own properties of an object, the elements of an
    array and the code units of a string under their indices, nothing for a
    number or a boolean. *)
Definition Object_entries (v : value) : result (list (jsstring * value)) :=
  match v with
  | JUndefined | JNull => Raise TypeError
  | JObj props => Ok props
  | JArr l => Ok (indexed 0%Z l)
  | JStr s => Ok (indexed 0%Z (map (fun c => JStr [c]) s))
  | JBool _ | JNum _ => Ok []
  end.

(** [v.length] of an array, and its elements. *)
Definition array_length (v : value) : Z :=
  match v with JArr l => Z.of_nat (List.length l) | _ => 0%Z end.

Definition elements (v : value) : list value :=
  match v with JArr l => l | _ => [] end.

(** The response of the API as the script reads it: [res.status] and the
    text of [res.text()]; [res.ok] is the success range of the status. *)
Record response : Type := {
  res_status : Z;
  res_text : jsstring
}.

Definition res_ok (res : response) : bool :=
  ((200 <=? res_status res) && (res_status res <=? 299))%Z.

Inductive fetch_result : Type :=
| Resolved (res : response)
| Rejected (e : exn).

(** [counts = { high, medium, low }] *)
Record counters : Type := {
  count_high : Z;
  count_medium : Z;
  count_low : Z
}.

(** [counts[r] += 1] *)
Definition bump (r : jsstring) (c : counters) : counters :=
  if str_eqb r (js "high") then
    {| count_high := (count_high c + 1)%Z; count_medium := count_medium c;
       count_low := count_low c |}
  else if str_eqb r (js "medium") then
    {| count_high := count_high c; count_medium := (count_medium c + 1)%Z;
       count_low := count_low c |}
  else if str_eqb r (js "low") then
    {| count_high := count_high c; count_medium := count_medium c;
       count_low := (count_low c + 1)%Z |}
  else c.

(** [counts[r]] *)
Definition count_of (r : jsstring) (c : counters) : Z :=
  if str_eqb r (js "high") then count_high c
  else if str_eqb r (js "medium") then count_medium c
  else if str_eqb r (js "low") then count_low c
  else 0%Z.

(** [a >= b] on two lookups in [severityRank]: a missing rank is
    [undefined], and the comparison is then false. *)
Definition rank_ge (a b : option Z) : bool :=
  match a, b with
  | Some x, Some y => (y <=? x)%Z
  | _, _ => false
  end.

Fixpoint env_lookup (key : jsstring) (env : list (jsstring * jsstring))
  : option jsstring :=
  match env with
  | [] => None
  | (k, v) :: r => if str_eqb key k then Some v else env_lookup key r
  end.

(** ** The script

    [process.env], the transport behind [fetch] and [JSON.parse] are the
    script's surroundings: [fetch] answers a request with a response or
    rejects, [JSON_parse] gives the parsed value or [None] where
    [JSON.parse] throws. *)

Section Reporter.

Variable process_env : list (jsstring * jsstring).
Variable fetch : request -> fetch_result.
Variable JSON_parse : jsstring -> option value.

Definition getInput (name fallback : jsstring) : jsstring :=
  let key := js "INPUT_" ++ toUpperCase (replace_spaces name) in
  match env_lookup key process_env with
  | Some v => v
  | None => fallback
  end.

(** The constants [main] reads first (lines 56-61). *)
Definition apiKey : jsstring := getInput (js "api_key") [].
Definition apiUrl : jsstring :=
  strip_trailing_slash (getInput (js "api_url") []).
Definition baseline : jsstring := getInput (js "baseline") (js "production").
Definition environments : list jsstring :=
  parseCsv (getInput (js "environments") (js "staging,production")).
(** [normalizeRisk] of the input, a string: [String] gives it back as it
    is. *)
Definition failOn : jsstring :=
  normalize_text (getInput (js "fail_on") (js "high")).
Definition annotate : bool :=
  negb (str_eqb (toLowerCase (getInput (js "annotate") (js "true")))
          (js "false")).

Definition the_request : request :=
  {| req_method := js "POST";
     req_url := apiUrl ++ js "/api/compare";
     req_headers :=
       [(js "Authorization", js "Bearer " ++ apiKey);
        (js "Content-Type", js "application/json");
        (js "Accept", js "application/json")];
     req_body :=
       JSON_stringify
         (JObj [(js "environments", JArr (map JStr environments));
                (js "baseline", JStr baseline)]) |}.

(** [await fetch(url, ...)] *)
Definition await_fetch (req : request) : M response :=
  emit (fetch_call req) ;;
  match fetch req with
  | Resolved res => ret res
  | Rejected e => throw e
  end.

(** Lines 80-85: the body as JSON, an empty body as the empty object. *)
Definition parse_body (res : response) : M value :=
  let text := res_text res in
  if truthy (JStr text) then
    match JSON_parse text with
    | Some v => ret v
    | None =>
        throw (Error (js "CloudMonitor compare returned non-JSON (status "
                      ++ Number_toString (res_status res) ++ js "): "
                      ++ firstn 200 text))
    end
  else ret (JObj []).

(** Lines 87-90. *)
Definition check_status (res : response) (json : value) : M unit :=
  when (negb (res_ok res))
    (msg <- lift (if truthy (get_opt json (js "message"))
                  then let* text := ToString (get json (js "message")) in
                       Ok (js ": " ++ text)
                  else Ok []) ;;
     throw (Error (js "CloudMonitor compare failed (status "
                   ++ Number_toString (res_status res) ++ js ")" ++ msg))).

(** The body of the first loop (lines 100-104) on the pair
    [(counts, totalIssues)]. *)
Definition tally (acc : counters * Z) (entry : jsstring * value)
  : result (counters * Z) :=
  let data := snd entry in
  let* r := normalizeRisk (get_opt data (js "risk")) in
  Ok (bump r (fst acc),
      (snd acc
       + (if isArray (get_opt data (js "issues"))
          then array_length (get data (js "issues"))
          else 0))%Z).

(** The first loop. *)
Fixpoint tally_all (entries : list (jsstring * value)) (acc : counters * Z)
  : result (counters * Z) :=
  match entries with
  | [] => Ok acc
  | entry :: rest => let* acc' := tally acc entry in tally_all rest acc'
  end.

Definition no_counts : counters :=
  {| count_high := 0; count_medium := 0; count_low := 0 |}.

(** The body of the inner loop (lines 116-125). *)
Definition print_issue (pairName r : jsstring) (issue : value) : M unit :=
  msg <- lift (issueToMessage issue) ;;
  text <- lift (ToString msg) ;;
  emit (console_log (js "  - " ++ text)) ;;
  when annotate
    (sev <- lift (inferSeverityFromIssue issue (JStr r)) ;;
     text' <- lift (ToString msg) ;;
     emit (console_log (annotationPrefix sev ++ pairName ++ js ": "
                        ++ text'))).

(** The body of the second loop (lines 110-126). *)
Definition print_pair (entry : jsstring * value) : M unit :=
  let pairName := fst entry in
  let data := snd entry in
  r <- lift (normalizeRisk (get_opt data (js "risk"))) ;;
  let issues :=
    if isArray (get_opt data (js "issues"))
    then elements (get data (js "issues"))
    else [] in
  match issues with
  | [] => ret tt
  | _ :: _ =>
      emit (console_log ([10] ++ icon r ++ js " " ++ pairName ++ js " ("
                         ++ toUpperCase r ++ js ")")) ;;
      for_of issues (print_issue pairName r)
  end.

(** Lines 129-134. *)
Definition decide (globalRisk : jsstring) : M unit :=
  when (rank_ge (severityRank globalRisk) (severityRank failOn))
    (emit (console_error
             (js "CloudMonitor: failing because risk="
              ++ toUpperCase globalRisk ++ js " >= fail_on="
              ++ toUpperCase failOn)) ;;
     process_exit 1) ;;
  process_exit 0.

(** Lines 92-134: what [main] does with the parsed body. *)
Definition report (json : value) : M unit :=
  risk <- lift (member json (js "risk")) ;;
  globalRisk <- lift (normalizeRisk risk) ;;
  pairs0 <- lift (member json (js "pairs")) ;;
  let pairs := or_else pairs0 (JObj []) in
  pairEntries <- lift (Object_entries pairs) ;;
  summary <- lift (tally_all pairEntries (no_counts, 0%Z)) ;;
  let counts := fst summary in
  let totalIssues := snd summary in
  emit (console_log
          (js "CloudMonitor baseline=" ++ baseline ++ js " risk="
           ++ toUpperCase globalRisk ++ js " pairs="
           ++ Number_toString (Z.of_nat (List.length pairEntries))
           ++ js " issues=" ++ Number_toString totalIssues)) ;;
  emit (console_log
          (js "Pairs: " ++ Number_toString (count_high counts)
           ++ js " HIGH / " ++ Number_toString (count_medium counts)
           ++ js " MED / " ++ Number_toString (count_low counts)
           ++ js " LOW")) ;;
  for_of pairEntries print_pair ;;
  decide globalRisk.

Definition main : M unit :=
  when (negb (truthy (JStr apiKey)))
    (throw (Error (js "Missing required input: api_key"))) ;;
  when (negb (truthy (JStr apiUrl)))
    (throw (Error (js "Missing required input: api_url"))) ;;
  res <- await_fetch the_request ;;
  json <- parse_body res ;;
  check_status res json ;;
  report json.

(** [main().catch(...)]: what the process prints and its exit code.  The
    stack of a caught error goes to standard error; a process whose [main]
    returned would end with code 0. *)
Definition run : list event * Z :=
  match main with
  | (t, Returned _) => (t, 0%Z)
  | (t, Exited code) => (t, code)
  | (t, Thrown e) => (t ++ [console_error_stack e], 1%Z)
  end.

End Reporter.
(** ** Words of the specification *)

(** [s] spells the lower-case word [w] in some mix of upper and lower case. *)
Definition spells (s w : jsstring) : Prop :=
  Forall2 (fun c k => c = k \/ c + 32 = k) s w.

Definition levels : list jsstring := [js "high"; js "medium"; js "low"].





(** A JSON text written with single quotes where the text has double
    quotes. *)
Definition json_text (s : string) : jsstring :=
  map (fun c => if c =? 39 then 34 else c) (js s).

(** The response of the specification's example, as text and as the value
    that text denotes. *)
Definition example_text : jsstring :=
  json_text "{'risk':'high','pairs':{'a':{'risk':'low','issues':[]},'b':{'risk':'high','issues':['missing snapshot for production app']}}}".

Definition example_json : value :=
  JObj [(js "risk", JStr (js "high"));
        (js "pairs",
         JObj [(js "a", JObj [(js "risk", JStr (js "low"));
                              (js "issues", JArr [])]);
               (js "b", JObj [(js "risk", JStr (js "high"));
                              (js "issues",
                               JArr [JStr (js "missing snapshot for production app")])])])].

(** A response whose one issue carries a number as its message. *)
Definition numeric_message_text : jsstring :=
  json_text "{'risk':'low','pairs':{'a':{'risk':'low','issues':[{'message':5}]}}}".

Definition numeric_message_json : value :=
  JObj [(js "risk", JStr (js "low"));
        (js "pairs",
         JObj [(js "a", JObj [(js "risk", JStr (js "low"));
                              (js "issues",
                               JArr [JObj [(js "message", JNum (integer 5))]])])])].

(** A response one of whose pairs has, as its risk, an object with a
    property named [toString]; the pair has no [issues]. *)
Definition object_risk_text : jsstring :=
  json_text "{'risk':'low','pairs':{'a':{'risk':{'toString':1}}}}".

Definition object_risk_json : value :=
  JObj [(js "risk", JStr (js "low"));
        (js "pairs",
         JObj [(js "a",
                JObj [(js "risk", JObj [(js "toString", JNum (integer 1))])])])].

Definition plain_env : list (jsstring * jsstring) :=
  [(js "INPUT_API_KEY", js "secret");
   (js "INPUT_API_URL", js "https://api.example")].

(** A lower-case ASCII letter other than [k], which is also the lower
    case of the Kelvin sign. *)
Definition plain_lower (k : N) : Prop := 97 <= k <= 122 /\ k <> 107.

(** A computation that never leaves through [process.exit]. *)
Definition no_exit {A} (m : M A) : Prop := forall c, snd m <> Exited c.

(** An entry as [parseCsv] leaves it: not empty, without a comma, with no
    white space at either end. *)
Definition clean_entry (e : jsstring) : Prop :=
  e <> []
  /\ ~ In 44 e
  /\ match e with [] => True | c :: _ => is_space c = false end
  /\ match rev e with [] => True | c :: _ => is_space c = false end.

(** [typeof v === "string"] *)
Definition typeof_string (v : value) : bool :=
  match v with JStr _ => true | _ => false end.

(** Kinds of events, and traces made of one kind. *)
Definition is_stderr (e : event) : bool :=
  match e with
  | console_error _ | console_error_stack _ => true
  | _ => false
  end.

Definition is_request (e : event) : bool :=
  match e with fetch_call _ => true | _ => false end.

Definition quiet (t : list event) : Prop :=
  Forall (fun e => is_stderr e = false) t.

(** Every event of a computation satisfies [P]. *)
Definition emits {A} (P : event -> Prop) (m : M A) : Prop := Forall P (fst m).

(** A computation that leaves through [process.exit] only with code 0 and
    nothing on standard error, or with code 1 and one line on standard error
    as its last event, and that is silent on standard error otherwise. *)
Definition ends_well {A} (m : M A) : Prop :=
  match snd m with
  | Exited c =>
      (c = 0%Z /\ quiet (fst m))
      \/ (c = 1%Z /\ exists t l, fst m = t ++ [console_error l] /\ quiet t)
  | _ => quiet (fst m)
  end.

(** The issues of a pair as both loops read them: the [issues] array, or
    nothing when the field is absent or no array. *)
Definition pair_issues (data : value) : list value :=
  if isArray (get_opt data (js "issues"))
  then elements (get data (js "issues"))
  else [].

(** Whether the second loop prints a block for the pair. *)
Definition has_issues (entry : jsstring * value) : bool :=
  match pair_issues (snd entry) with [] => false | _ :: _ => true end.

(** A call of [console.log] that the script makes with annotation off:
    its argument starts as the first summary line, the second one, a pair
    header or an issue line does. *)
Definition plain_call (e : event) : Prop :=
  match e with
  | console_log text =>
      startsWith text (js "CloudMonitor baseline=")
      || startsWith text (js "Pairs: ")
      || startsWith text [10]
      || startsWith text (js "  - ") = true
  | _ => True
  end.

(** A value [String] renders at any depth: no object in it has an own
    property named [toString]. *)
Fixpoint plain (v : value) : bool :=
  match v with
  | JArr l => forallb plain l
  | JObj props =>
      negb (has_own (js "toString") props)
      && (fix all (ps : list (jsstring * value)) : bool :=
            match ps with
            | [] => true
            | (_, x) :: r => plain x && all r
            end) props
  | _ => true
  end.

(** * Properties *)

(** ** Strings *)

Lemma str_eqb_eq (a b : jsstring) : str_eqb a b = true <-> a = b.
Proof.
  revert b; induction a as [|x a IH]; intros [|y b]; simpl;
    try (split; [discriminate | discriminate || reflexivity]); try tauto.
  rewrite andb_true_iff, N.eqb_eq, IH.
  split; [intros [-> ->]; reflexivity | intros H; injection H; auto].
Qed.

Lemma str_eqb_refl (a : jsstring) : str_eqb a a = true.
Proof. apply str_eqb_eq; reflexivity. Qed.

Lemma str_eqb_neq (a b : jsstring) : str_eqb a b = false <-> a <> b.
Proof.
  rewrite <- str_eqb_eq. destruct (str_eqb a b); split; congruence.
Qed.

Lemma split_nonempty (sep : N) (s : jsstring) : split sep s <> [].
Proof.
  destruct s as [|c s]; simpl; [discriminate|].
  destruct (c =? sep); [discriminate|].
  destruct (split sep s); discriminate.
Qed.

Lemma join_split (sep : N) (s : jsstring) : join [sep] (split sep s) = s.
Proof.
  induction s as [|c s IH]; simpl; [reflexivity|].
  destruct (N.eqb_spec c sep) as [->|Hc].
  - pose proof (split_nonempty sep s) as Hn.
    destruct (split sep s) as [|p ps]; [contradiction|].
    simpl in *. now rewrite IH.
  - pose proof (split_nonempty sep s) as Hn.
    destruct (split sep s) as [|p ps]; [contradiction|].
    destruct ps; simpl in *; now rewrite <- IH.
Qed.

Lemma split_no_sep (sep : N) (s : jsstring) :
  Forall (fun p => ~ In sep p) (split sep s).
Proof.
  induction s as [|c s IH]; simpl.
  - constructor; [intros [] | constructor].
  - destruct (N.eqb_spec c sep) as [->|Hc].
    + constructor; [intros [] | exact IH].
    + destruct (split sep s) as [|p ps].
      * constructor; [|constructor]. intros [H|[]]; congruence.
      * inversion IH; subst. constructor; [|assumption].
        intros [H|H]; [congruence | contradiction].
Qed.

Lemma trimStart_split (s : jsstring) :
  exists a, s = a ++ trimStart s /\ forallb is_space a = true.
Proof.
  induction s as [|c s [a [Ha Hs]]]; simpl.
  - exists []; split; reflexivity.
  - destruct (is_space c) eqn:Hc.
    + exists (c :: a); simpl; rewrite Hc, Hs; split; [congruence | reflexivity].
    + exists []; split; reflexivity.
Qed.

Lemma trimStart_head (s : jsstring) :
  match trimStart s with [] => True | c :: _ => is_space c = false end.
Proof.
  induction s as [|c s IH]; simpl; [exact I|].
  destruct (is_space c) eqn:Hc; [exact IH | exact Hc].
Qed.

Lemma trimEnd_split (s : jsstring) :
  exists b, s = trimEnd s ++ b /\ forallb is_space b = true.
Proof.
  unfold trimEnd. destruct (trimStart_split (rev s)) as [a [Ha Hs]].
  exists (rev a); split.
  - rewrite <- rev_app_distr, <- Ha, rev_involutive; reflexivity.
  - rewrite forallb_forall in *. intros x Hx. apply Hs, in_rev, Hx.
Qed.

Lemma trimEnd_last (s : jsstring) :
  match rev (trimEnd s) with [] => True | c :: _ => is_space c = false end.
Proof.
  unfold trimEnd. rewrite rev_involutive. apply trimStart_head.
Qed.

(** What [trim] leaves: the text between a run of white space at the start
    and one at the end, itself starting and ending with none. *)
Lemma trim_spec (s : jsstring) :
  (exists a b, s = a ++ trim s ++ b
               /\ forallb is_space a = true /\ forallb is_space b = true)
  /\ match trim s with [] => True | c :: _ => is_space c = false end
  /\ match rev (trim s) with [] => True | c :: _ => is_space c = false end.
Proof.
  unfold trim.
  destruct (trimStart_split s) as [a [Ha Hsa]].
  destruct (trimEnd_split (trimStart s)) as [b [Hb Hsb]].
  split; [|split].
  - exists a, b. rewrite <- Hb. auto.
  - pose proof (trimStart_head s) as Hh.
    rewrite Hb in Hh.
    destruct (trimEnd (trimStart s)); [exact I | exact Hh].
  - apply trimEnd_last.
Qed.

(** C7. The environments parser splits its input on commas (the pieces,
    joined again with commas, are the input, and none holds a comma), trims
    white space from every piece and drops the empty ones, in order;
    "staging, production,,qa" gives staging, production, qa. *)
Theorem parseCsv_splits_trims_drops :
  (forall input : jsstring,
      exists pieces : list jsstring,
        join (js ",") pieces = input
        /\ Forall (fun p => ~ In 44 p) pieces
        /\ parseCsv input
           = filter (fun s => negb (str_eqb s [])) (map trim pieces))
  /\ (forall s : jsstring,
         (exists a b, s = a ++ trim s ++ b
                      /\ forallb is_space a = true
                      /\ forallb is_space b = true)
         /\ match trim s with [] => True | c :: _ => is_space c = false end
         /\ match rev (trim s) with [] => True | c :: _ => is_space c = false end)
  /\ parseCsv (js "staging, production,,qa")
     = [js "staging"; js "production"; js "qa"].
Proof.
  split; [|split].
  - intros input. exists (split 44 input). split; [|split].
    + apply join_split.
    + apply split_no_sep.
    + unfold parseCsv. apply filter_ext. intros [|c s]; reflexivity.
  - apply trim_spec.
  - reflexivity.
Qed.
(** ** Risk levels *)

Lemma lower_unit_cases (c : N) :
  (65 <= c <= 90 /\ lower_unit c = [c + 32])
  \/ (c = 8490 /\ lower_unit c = [107])
  \/ (c = 304 /\ lower_unit c = [105; 775])
  \/ (~ 65 <= c <= 90 /\ c <> 8490 /\ c <> 304 /\ lower_unit c = [c]).
Proof.
  unfold lower_unit, is_upper_ascii.
  destruct (N.leb_spec 65 c); destruct (N.leb_spec c 90); simpl;
    try (left; split; [lia | reflexivity]);
    (destruct (N.eqb_spec c 8490); [right; left; auto|]);
    (destruct (N.eqb_spec c 304); [right; right; left; auto|]);
    right; right; right; repeat split; auto; lia.
Qed.

Lemma toLowerCase_spells (w : jsstring) :
  Forall plain_lower w ->
  forall s, toLowerCase s = w <-> spells s w.
Proof.
  intros Hw s; revert w Hw.
  induction s as [|c s IH]; intros w Hw.
  - simpl; split.
    + intros <-; constructor.
    + intros H; inversion H; reflexivity.
  - unfold toLowerCase in *; simpl. split.
    + intros H.
      destruct (lower_unit_cases c)
        as [[Hc E]|[[Hc E]|[[Hc E]|(Hc & _ & _ & E)]]];
        rewrite E in H; simpl in H; subst w.
      * inversion Hw; subst. constructor; [right; reflexivity|].
        apply IH; [assumption | reflexivity].
      * inversion Hw as [|? ? [_ Hk] _]; congruence.
      * inversion Hw as [|? ? _ Hw']; subst.
        inversion Hw' as [|? ? [Hk _] _]; lia.
      * inversion Hw; subst. constructor; [left; reflexivity|].
        apply IH; [assumption | reflexivity].
    + intros H. inversion H as [|? k ? w' Hck Hs]; subst.
      inversion Hw as [|? ? [Hk Hk'] Hw']; subst.
      apply IH in Hs; [|assumption]. rewrite Hs.
      destruct (lower_unit_cases c)
        as [[Hc E]|[[Hc E]|[[Hc E]|(Hc & _ & _ & E)]]];
        rewrite E; simpl; f_equal; lia.
Qed.

Lemma plain_high : Forall plain_lower (js "high").
Proof. repeat constructor; simpl; lia. Qed.

Lemma plain_medium : Forall plain_lower (js "medium").
Proof. repeat constructor; simpl; lia. Qed.


Lemma is_level_In (r : jsstring) : is_level r = true <-> In r levels.
Proof.
  unfold is_level, levels. rewrite !orb_true_iff, !str_eqb_eq. simpl.
  intuition congruence.
Qed.

Lemma normalize_text_level (s : jsstring) : In (normalize_text s) levels.
Proof.
  unfold normalize_text.
  destruct (is_level _) eqn:E.
  - apply is_level_In, E.
  - simpl; auto.
Qed.

Lemma normalizeRisk_level (v : value) (r : jsstring) :
  normalizeRisk v = Ok r -> In r levels.
Proof.
  unfold normalizeRisk. destruct (ToString _); simpl; [|discriminate].
  intros H. injection H as <-. apply normalize_text_level.
Qed.

(** On a string, [String] changes nothing and normalization cannot
    throw. *)
Lemma normalizeRisk_JStr (s : jsstring) :
  normalizeRisk (JStr s) = Ok (normalize_text s).
Proof. destruct s; reflexivity. Qed.

(** The result is the lower-cased text when that is a level. *)
Lemma normalizeRisk_text (v : value) (t lvl : jsstring) :
  In lvl levels ->
  ToString (or_else v (JStr [])) = Ok t ->
  toLowerCase t = lvl ->
  normalizeRisk v = Ok lvl.
Proof.
  intros Hl Ht E. unfold normalizeRisk, normalize_text. rewrite Ht. simpl.
  rewrite E. apply is_level_In in Hl. now rewrite Hl.
Qed.

Lemma normalize_text_not_low (s : jsstring) :
  normalize_text s <> js "low" -> toLowerCase s = normalize_text s.
Proof.
  unfold normalize_text. destruct (is_level _); congruence.
Qed.

Lemma normalize_text_spells (s lvl : jsstring) :
  lvl = js "high" \/ lvl = js "medium" ->
  normalize_text s = lvl <-> spells s lvl.
Proof.
  intros Hl.
  assert (Hp : Forall plain_lower lvl)
    by (destruct Hl; subst; [apply plain_high | apply plain_medium]).
  assert (Hin : is_level lvl = true) by (destruct Hl; subst; reflexivity).
  assert (Hne : lvl <> js "low") by (destruct Hl; subst; discriminate).
  rewrite <- (toLowerCase_spells lvl Hp).
  split.
  - intros E. rewrite <- E. apply normalize_text_not_low. congruence.
  - intros E. unfold normalize_text. rewrite E, Hin. reflexivity.
Qed.

Lemma normalizeRisk_string (s lvl : jsstring) :
  lvl = js "high" \/ lvl = js "medium" ->
  normalizeRisk (JStr s) = Ok lvl <-> spells s lvl.
Proof.
  intros Hl. rewrite normalizeRisk_JStr, <- (normalize_text_spells s lvl Hl).
  split; [intros H; injection H; auto | intros ->; reflexivity].
Qed.

(** A number is rendered with a digit, a minus sign or the [I] of
    [Infinity] first. *)
Lemma number_toString_head (n : number) :
  exists c r, number_toString n = c :: r /\ (c < 65 \/ c = 73).
Proof.
  assert (Hi : forall i, exists c r,
               js (NilZero.string_of_int i) = c :: r /\ c < 65).
  { intros [d|d]; simpl.
    - destruct d; simpl; eexists; eexists; (split; [reflexivity | simpl; lia]).
    - eexists; eexists; (split; [reflexivity | simpl; lia]). }
  destruct n as [[i f|i f e]|[|]]; simpl.
  - destruct (Hi i) as (c & r & -> & Hc). eexists; eexists.
    split; [reflexivity | auto].
  - destruct (Hi i) as (c & r & -> & Hc). eexists; eexists.
    split; [reflexivity | auto].
  - eexists; eexists. split; [reflexivity | left; simpl; lia].
  - eexists; eexists. split; [reflexivity | right; reflexivity].
Qed.

Lemma not_level_head (c : N) (r : jsstring) :
  c < 65 \/ c = 73 -> normalize_text (c :: r) = js "low".
Proof.
  intros Hc. unfold normalize_text, toLowerCase; simpl.
  destruct (lower_unit_cases c)
    as [[H E]|[[H E]|[[H E]|(H & _ & _ & E)]]]; try lia.
  - destruct Hc as [Hc| ->]; [lia|]. reflexivity.
  - rewrite E; simpl. unfold is_level; simpl.
    destruct (N.eqb_spec c 104); [lia|].
    destruct (N.eqb_spec c 109); [lia|].
    destruct (N.eqb_spec c 108); [lia|]. reflexivity.
Qed.

Lemma normalizeRisk_number (n : number) : normalizeRisk (JNum n) = Ok (js "low").
Proof.
  unfold normalizeRisk, or_else. simpl truthy.
  destruct (negb _); simpl; [|reflexivity].
  destruct (number_toString_head n) as (c & r & -> & Hc).
  now rewrite not_level_head.
Qed.

Lemma normalizeRisk_other (v : value) :
  match v with
  | JUndefined | JNull | JBool _ | JNum _ | JStr [] =>
      normalizeRisk v = Ok (js "low")
  | JObj props =>
      has_own (js "toString") props = false -> normalizeRisk v = Ok (js "low")
  | _ => True
  end.
Proof.
  destruct v as [| |[|]|n|[|c s]|l|props]; try reflexivity; try exact I.
  - apply normalizeRisk_number.
  - intros H. unfold normalizeRisk, or_else. simpl. rewrite H. reflexivity.
Qed.

(** C2, as stated, fails on an array: the one-element array holding "HIGH"
    is no string, and normalization maps it to "high" instead of "low". *)
Lemma normalizeRisk_array_counterexample :
  (forall s, JArr [JStr (js "HIGH")] <> JStr s)
  /\ normalizeRisk (JArr [JStr (js "HIGH")]) = Ok (js "high")
  /\ normalizeRisk (JArr [JStr (js "HIGH")]) <> Ok (js "low").
Proof.
  split; [intros s; discriminate|].
  split; [reflexivity | discriminate].
Qed.

(** C2 (amended). Risk normalization works on the text of its input: the
    value coerced to a string by [String] (a falsy value to the empty string)
    and lower-cased.  Whenever it returns, its result is "high", "medium" or
    "low", and is that text whenever the text is one of the three.  A string
    is mapped to "high" or "medium" exactly when it spells the word in some
    mix of cases, and to "low" otherwise; [undefined], [null], booleans,
    numbers, the empty string and objects without an own [toString] property
    are mapped to "low"; an array is mapped as the string of its comma-joined
    elements is. *)
Theorem normalizeRisk_by_text :
  (forall v r, normalizeRisk v = Ok r -> In r levels)
  /\ (forall v t lvl,
         In lvl levels ->
         ToString (or_else v (JStr [])) = Ok t ->
         toLowerCase t = lvl ->
         normalizeRisk v = Ok lvl)
  /\ (forall s lvl,
         lvl = js "high" \/ lvl = js "medium" ->
         normalizeRisk (JStr s) = Ok lvl <-> spells s lvl)
  /\ (forall s,
         ~ spells s (js "high") -> ~ spells s (js "medium") ->
         normalizeRisk (JStr s) = Ok (js "low"))
  /\ (forall v,
         match v with
         | JUndefined | JNull | JBool _ | JNum _ | JStr [] =>
             normalizeRisk v = Ok (js "low")
         | JObj props =>
             has_own (js "toString") props = false ->
             normalizeRisk v = Ok (js "low")
         | _ => True
         end)
  /\ (forall l,
         normalizeRisk (JArr l)
         = let* t := ToString (JArr l) in normalizeRisk (JStr t)).
Proof.
  split; [exact normalizeRisk_level|].
  split; [exact normalizeRisk_text|].
  split; [exact normalizeRisk_string|].
  split; [|split; [exact normalizeRisk_other|]].
  - intros s Hh Hm. rewrite normalizeRisk_JStr. f_equal.
    destruct (normalize_text_level s) as [E|[E|[E|[]]]]; symmetry in E.
    + apply normalize_text_spells in E; [contradiction | auto].
    + apply normalize_text_spells in E; [contradiction | auto].
    + exact E.
  - intros l. change (normalizeRisk (JArr l))
      with (let* s := ToString (JArr l) in Ok (normalize_text s)).
    destruct (ToString (JArr l)) as [t|e]; simpl; [|reflexivity].
    now rewrite normalizeRisk_JStr.
Qed.

Lemma normalizeRisk_by_text_witness :
  spells (js "MeDiuM") (js "medium")
  /\ normalizeRisk (JStr (js "MeDiuM")) = Ok (js "medium")
  /\ normalizeRisk (JStr (js "critical")) = Ok (js "low")
  /\ normalizeRisk (JArr [JStr (js "High")]) = Ok (js "high")
  /\ normalizeRisk (JObj [(js "level", JStr (js "high"))]) = Ok (js "low").
Proof.
  assert (H : spells (js "MeDiuM") (js "medium")).
  { repeat constructor; simpl; (left; reflexivity) || (right; reflexivity). }
  split; [exact H|]. split; [|split; [|split]].
  - apply (proj1 (proj2 (proj2 normalizeRisk_by_text))); [right; reflexivity | exact H].
  - apply (proj1 (proj2 (proj2 (proj2 normalizeRisk_by_text)))).
    + intros C. inversion C as [|? ? ? ? [E|E] _]; discriminate E.
    + intros C. inversion C as [|? ? ? ? [E|E] _]; discriminate E.
  - rewrite (proj2 (proj2 (proj2 (proj2 (proj2 normalizeRisk_by_text))))).
    simpl rbind.
    apply (proj1 (proj2 (proj2 normalizeRisk_by_text))); [left; reflexivity|].
    repeat constructor; simpl; (left; reflexivity) || (right; reflexivity).
  - exact (proj1 (proj2 (proj2 (proj2 (proj2 normalizeRisk_by_text))))
             (JObj [(js "level", JStr (js "high"))]) eq_refl).
Defined.
(** ** What [String] does to a value *)

Lemma map_result_raise {A B} (f : A -> result B) (l : list A) (e : exn) :
  map_result f l = Raise e -> exists x, In x l /\ f x = Raise e.
Proof.
  induction l as [|x l IH]; simpl; [discriminate|].
  destruct (f x) as [y|e'] eqn:E.
  - destruct (map_result f l); [discriminate|].
    intros H. injection H as ->. destruct (IH eq_refl) as (z & Hz & Hf).
    exists z; auto.
  - intros H. injection H as ->. exists x; auto.
Qed.

Lemma map_result_ok {A B} (f : A -> result B) (l : list A) :
  Forall (fun x => exists y, f x = Ok y) l -> exists ys, map_result f l = Ok ys.
Proof.
  induction 1 as [|x l [y Hy] _ [ys IH]]; simpl.
  - eexists; reflexivity.
  - rewrite Hy, IH. eexists; reflexivity.
Qed.

(** The only error of [String] is the [TypeError]. *)
Lemma ToString_raise (v : value) (e : exn) :
  ToString v = Raise e -> e = TypeError.
Proof.
  revert e. induction v as [| |b|n|s|l IH|props IH] using value_induction;
    intros e; try discriminate.
  - destruct b; discriminate.
  - simpl. destruct (map_result _ l) as [ts|e'] eqn:E; [discriminate|].
    intros H. injection H as ->.
    apply map_result_raise in E as (x & Hx & Hf).
    rewrite Forall_forall in IH. apply (IH x Hx).
    destruct x; try discriminate Hf; exact Hf.
  - simpl. destruct (has_own _ props); [|discriminate].
    intros H. injection H as <-. reflexivity.
Qed.

Lemma normalizeRisk_raise (v : value) (e : exn) :
  normalizeRisk v = Raise e -> e = TypeError.
Proof.
  unfold normalizeRisk. destruct (ToString _) as [t|e'] eqn:E; simpl;
    [discriminate|].
  intros H. injection H as ->. exact (ToString_raise _ _ E).
Qed.

(** A value without an own [toString] at any depth is rendered. *)
Lemma plain_renders (v : value) :
  plain v = true -> exists t, ToString v = Ok t.
Proof.
  induction v as [| |b|n|s|l IH|props IH] using value_induction; intros H;
    try (eexists; reflexivity).
  - destruct b; eexists; reflexivity.
  - simpl in *. rewrite forallb_forall in H.
    destruct (map_result_ok
                (fun x => match x with
                          | JUndefined | JNull => Ok []
                          | _ => ToString x
                          end) l) as [ts Hts].
    { rewrite Forall_forall in *. intros x Hx.
      destruct (IH x Hx (H x Hx)) as [t Ht].
      destruct x; try (eexists; reflexivity); eexists; exact Ht. }
    rewrite Hts. eexists; reflexivity.
  - simpl in *. apply andb_true_iff in H as [H _].
    apply negb_true_iff in H. rewrite H. eexists; reflexivity.
Qed.

Lemma plain_get (v : value) (k : jsstring) :
  plain v = true -> plain (get v k) = true.
Proof.
  destruct v as [| |b|n|s|l|props]; try reflexivity.
  simpl. intros H. apply andb_true_iff in H as [_ H].
  induction props as [|[k' x] props IH]; [reflexivity|].
  apply andb_true_iff in H as [Hx H]. simpl.
  destruct (str_eqb k k'); auto.
Qed.

Lemma plain_get_opt (v : value) (k : jsstring) :
  plain v = true -> plain (get_opt v k) = true.
Proof.
  intros H. destruct v; try reflexivity; apply (plain_get _ k H).
Qed.

Lemma normalizeRisk_plain (v : value) :
  plain v = true -> exists r, normalizeRisk v = Ok r.
Proof.
  intros H. unfold normalizeRisk.
  destruct (plain_renders (or_else v (JStr []))) as [t ->].
  - unfold or_else. destruct (truthy v); [exact H | reflexivity].
  - eexists; reflexivity.
Qed.

(** ** Sequencing *)

Lemma bind_ret {A B} (a : A) (k : A -> M B) : bind (ret a) k = k a.
Proof. unfold bind, ret. destruct (k a); reflexivity. Qed.

Lemma bind_emit {B} (e : event) (k : unit -> M B) :
  bind (emit e) k = (e :: fst (k tt), snd (k tt)).
Proof. unfold bind, emit. destruct (k tt); reflexivity. Qed.

Lemma bind_assoc {A B C} (m : M A) (f : A -> M B) (g : B -> M C) :
  bind (bind m f) g = bind m (fun x => bind (f x) g).
Proof.
  destruct m as [t [a|c|e]]; simpl; try reflexivity.
  destruct (f a) as [t' [b|c|e]]; simpl; try reflexivity.
  destruct (g b) as [t'' o]. now rewrite app_assoc.
Qed.

Lemma bind_lift_ok {A B} (a : A) (k : A -> M B) : bind (lift (Ok a)) k = k a.
Proof. apply bind_ret. Qed.

Lemma bind_lift_raise {A B} (e : exn) (k : A -> M B) :
  bind (lift (Raise e)) k = ([], Thrown e).
Proof. reflexivity. Qed.

(** ** Issues and their annotation *)

(** The script takes the issue's own severity exactly when the issue is an
    object with a truthy [severity]. *)
Lemma own_severity_test (issue : value) :
  truthy issue && typeof_object issue && truthy (get issue (js "severity"))
  = truthy (get_opt issue (js "severity")).
Proof.
  destruct issue as [| |[|]|n|[|c s]|l|props]; try reflexivity.
  simpl. now rewrite andb_false_r.
Qed.

Lemma infer_own (issue pairRisk : value) :
  truthy (get_opt issue (js "severity")) = true ->
  inferSeverityFromIssue issue pairRisk
  = normalizeRisk (get issue (js "severity")).
Proof.
  intros H. unfold inferSeverityFromIssue.
  rewrite own_severity_test, H. reflexivity.
Qed.



Lemma normalize_text_fixed (lvl : jsstring) :
  In lvl levels -> normalize_text lvl = lvl.
Proof. intros [<-|[<-|[<-|[]]]]; reflexivity. Qed.




(** ** The run *)

Lemma nonempty_truthy (s : jsstring) : s <> [] -> truthy (JStr s) = true.
Proof. destruct s; [contradiction | reflexivity]. Qed.

(** With both required inputs present, [main] sends its one request and
    goes on with the answer. *)
Lemma main_resolved env fetch parse res :
  apiKey env <> [] -> apiUrl env <> [] ->
  fetch (the_request env) = Resolved res ->
  main env fetch parse
  = let k := json <- parse_body parse res ;;
              check_status res json ;; report env json in
    (fetch_call (the_request env) :: fst k, snd k).
Proof.
  intros Hk Hu Hf. unfold main, when, await_fetch.
  rewrite (nonempty_truthy _ Hk), (nonempty_truthy _ Hu). simpl negb.
  cbv iota. rewrite !bind_ret, Hf, bind_assoc, !bind_emit.
  now rewrite bind_ret.
Qed.

(** C6. When api_key or api_url resolves to the empty string, [main] throws
    the configuration error at once: its trace is empty, so no request was
    sent, and the process prints the error and exits with code 1. *)
Theorem missing_input_fails_before_fetch :
  forall env fetch parse,
    apiKey env = [] \/ apiUrl env = [] ->
    exists msg,
      (msg = js "Missing required input: api_key"
       \/ msg = js "Missing required input: api_url")
      /\ main env fetch parse = ([], Thrown (Error msg))
      /\ run env fetch parse = ([console_error_stack (Error msg)], 1%Z)
      /\ forall req, ~ In (fetch_call req) (fst (run env fetch parse)).
Proof.
  intros env fetch parse H.
  assert (exists msg,
             (msg = js "Missing required input: api_key"
              \/ msg = js "Missing required input: api_url")
             /\ main env fetch parse = ([], Thrown (Error msg)))
    as (msg & Hm & E).
  { unfold main, when.
    destruct (apiKey env) as [|c k] eqn:Ek.
    - eexists; split; [left; reflexivity | reflexivity].
    - destruct H as [H|H]; [discriminate|]. rewrite H.
      eexists; split; [right; reflexivity | reflexivity]. }
  exists msg. split; [exact Hm|]. split; [exact E|].
  unfold run. rewrite E. split; [reflexivity|].
  intros req [C|[]]; discriminate.
Qed.

Lemma missing_input_fails_before_fetch_witness :
  let env := [(js "INPUT_API_KEY", js "secret"); (js "INPUT_API_URL", js "/")] in
  let fetch := fun _ => Resolved {| res_status := 200; res_text := [] |} in
  apiUrl env = []
  /\ exists msg,
      (msg = js "Missing required input: api_key"
       \/ msg = js "Missing required input: api_url")
      /\ main env fetch (fun _ => None) = ([], Thrown (Error msg))
      /\ run env fetch (fun _ => None) = ([console_error_stack (Error msg)], 1%Z)
      /\ forall req, ~ In (fetch_call req) (fst (run env fetch (fun _ => None))).
Proof.
  intros env fetch. split; [reflexivity|].
  apply (missing_input_fails_before_fetch env fetch (fun _ => None)).
  right; reflexivity.
Defined.

(** C4, as stated, fails on the empty body: it is not valid JSON (the
    parser here rejects it, as [JSON.parse] does), yet with status 200 the
    run does not fail and the process exits with code 0. *)
Lemma empty_body_counterexample :
  let env := [(js "INPUT_API_KEY", js "secret");
              (js "INPUT_API_URL", js "https://api.example")] in
  let res := {| res_status := 200; res_text := [] |} in
  let parse := fun _ : jsstring => @None value in
  parse (res_text res) = None
  /\ snd (run env (fun _ => Resolved res) parse) = 0%Z
  /\ forall e, ~ In (console_error_stack e)
                 (fst (run env (fun _ => Resolved res) parse)).
Proof.
  intros env res parse. split; [reflexivity|]. split; [reflexivity|].
  intros e H. vm_compute in H.
  repeat (destruct H as [H|H]; [discriminate|]). exact H.
Qed.

(** C4 (amended). For every response whose body is not empty and is not
    valid JSON, whatever its HTTP status, [main] throws after its request and
    before the status check an error whose message holds the status and the
    first 200 code units of the body, and the process exits with code 1. *)
Theorem non_json_body_fails :
  forall env fetch parse res,
    apiKey env <> [] -> apiUrl env <> [] ->
    fetch (the_request env) = Resolved res ->
    res_text res <> [] ->
    parse (res_text res) = None ->
    let msg := js "CloudMonitor compare returned non-JSON (status "
               ++ Number_toString (res_status res) ++ js "): "
               ++ firstn 200 (res_text res) in
    main env fetch parse = ([fetch_call (the_request env)], Thrown (Error msg))
    /\ run env fetch parse
       = ([fetch_call (the_request env); console_error_stack (Error msg)], 1%Z)
    /\ (List.length (firstn 200 (res_text res)) <= 200)%nat
    /\ exists rest, res_text res = firstn 200 (res_text res) ++ rest.
Proof.
  intros env fetch parse res Hk Hu Hf Ht Hp msg.
  assert (E : main env fetch parse
              = ([fetch_call (the_request env)], Thrown (Error msg))).
  { rewrite (main_resolved env fetch parse res Hk Hu Hf).
    unfold parse_body. rewrite (nonempty_truthy _ Ht), Hp. reflexivity. }
  split; [exact E|]. split; [unfold run; rewrite E; reflexivity|].
  split; [apply firstn_le_length|].
  exists (skipn 200 (res_text res)). symmetry. apply firstn_skipn.
Qed.

Lemma non_json_body_fails_witness :
  let env := [(js "INPUT_API_KEY", js "secret");
              (js "INPUT_API_URL", js "https://api.example")] in
  let res := {| res_status := 500; res_text := js "<html>Internal Server Error</html>" |} in
  run env (fun _ => Resolved res) (fun _ => None)
  = ([fetch_call (the_request env);
      console_error_stack
        (Error (js "CloudMonitor compare returned non-JSON (status 500): <html>Internal Server Error</html>"))],
     1%Z).
Proof.
  intros env res.
  refine (proj1 (proj2 (non_json_body_fails env (fun _ => Resolved res)
                          (fun _ => None) res _ _ eq_refl _ eq_refl)));
    discriminate.
Defined.
Lemma decide_eq env (globalRisk : jsstring) :
  decide env globalRisk
  = if rank_ge (severityRank globalRisk) (severityRank (failOn env))
    then ([console_error
             (js "CloudMonitor: failing because risk="
              ++ toUpperCase globalRisk ++ js " >= fail_on="
              ++ toUpperCase (failOn env))], Exited 1%Z)
    else ([], Exited 0%Z).
Proof. unfold decide, when. destruct (rank_ge _ _); reflexivity. Qed.

(** With a parsed body and a success status, [main] is its request
    followed by the report. *)
Lemma main_report env fetch parse res json :
  apiKey env <> [] -> apiUrl env <> [] ->
  fetch (the_request env) = Resolved res ->
  parse_body parse res = ([], Returned json) ->
  res_ok res = true ->
  main env fetch parse
  = (fetch_call (the_request env) :: fst (report env json),
     snd (report env json)).
Proof.
  intros Hk Hu Hf Hp Hok.
  rewrite (main_resolved env fetch parse res Hk Hu Hf). cbv zeta.
  rewrite Hp. change ([], Returned json) with (ret (A := value) json).
  rewrite bind_ret. unfold check_status, when. rewrite Hok. simpl negb.
  cbv iota. rewrite bind_ret. reflexivity.
Qed.

(** C9. An empty body is never handed to the parser: it reads as the
    empty object.  With a success status the run reports risk LOW, no pairs
    and no issues, and the exit code is the outcome of comparing "low" with
    the threshold. *)
Theorem empty_body_is_empty_object :
  forall env fetch parse res,
    apiKey env <> [] -> apiUrl env <> [] ->
    fetch (the_request env) = Resolved res ->
    res_text res = [] -> res_ok res = true ->
    let fails := rank_ge (severityRank (js "low")) (severityRank (failOn env)) in
    parse_body parse res = ([], Returned (JObj []))
    /\ main env fetch parse
       = ([fetch_call (the_request env);
           console_log (js "CloudMonitor baseline=" ++ baseline env
                        ++ js " risk=LOW pairs=0 issues=0");
           console_log (js "Pairs: 0 HIGH / 0 MED / 0 LOW")]
          ++ (if fails
              then [console_error
                      (js "CloudMonitor: failing because risk=LOW >= fail_on="
                       ++ toUpperCase (failOn env))]
              else []),
          Exited (if fails then 1 else 0)%Z).
Proof.
  intros env fetch parse res Hk Hu Hf Ht Hok fails.
  assert (Hp : parse_body parse res = ([], Returned (JObj [])))
    by (unfold parse_body; rewrite Ht; reflexivity).
  split; [exact Hp|].
  rewrite (main_report env fetch parse res _ Hk Hu Hf Hp Hok).
  unfold fails, report, decide.
  destruct (normalize_text_level (getInput env (js "fail_on") (js "high")))
    as [E|[E|[E|[]]]]; fold (failOn env) in E; rewrite <- E; reflexivity.
Qed.

Lemma empty_body_is_empty_object_witness :
  let env := [(js "INPUT_API_KEY", js "secret");
              (js "INPUT_API_URL", js "https://api.example/");
              (js "INPUT_FAIL_ON", js "LOW")] in
  let res := {| res_status := 204; res_text := [] |} in
  main env (fun _ => Resolved res) (fun _ => None)
  = ([fetch_call (the_request env);
      console_log (js "CloudMonitor baseline=production risk=LOW pairs=0 issues=0");
      console_log (js "Pairs: 0 HIGH / 0 MED / 0 LOW");
      console_error (js "CloudMonitor: failing because risk=LOW >= fail_on=LOW")],
     Exited 1%Z).
Proof.
  intros env res.
  refine (proj2 (empty_body_is_empty_object env (fun _ => Resolved res)
                   (fun _ => None) res _ _ eq_refl eq_refl eq_refl));
    discriminate.
Defined.

(** C5. The example response with fail_on=high: the summary line reports
    risk=HIGH, pairs=2 and issues=1; pair a, which has no issues, prints
    nothing; pair b has a header with the icon U+2716 (code unit 10006); the
    process prints the threshold line and exits with code 1. *)
Theorem example_response_report :
  forall env fetch parse res,
    apiKey env <> [] -> apiUrl env <> [] -> failOn env = js "high" ->
    fetch (the_request env) = Resolved res -> res_ok res = true ->
    res_text res = example_text -> parse example_text = Some example_json ->
    main env fetch parse
    = ([fetch_call (the_request env);
        console_log (js "CloudMonitor baseline=" ++ baseline env
                     ++ js " risk=HIGH pairs=2 issues=1");
        console_log (js "Pairs: 1 HIGH / 0 MED / 1 LOW");
        console_log ([10; 10006] ++ js " b (HIGH)");
        console_log (js "  - missing snapshot for production app")]
       ++ (if annotate env
           then [console_log
                   (js "::error::b: missing snapshot for production app")]
           else [])
       ++ [console_error
             (js "CloudMonitor: failing because risk=HIGH >= fail_on=HIGH")],
       Exited 1%Z)
    /\ print_pair env (js "a", JObj [(js "risk", JStr (js "low"));
                                     (js "issues", JArr [])])
       = ([], Returned tt)
    /\ snd (run env fetch parse) = 1%Z.
Proof.
  intros env fetch parse res Hk Hu Hfail Hf Hok Ht Hp.
  assert (Hb : parse_body parse res = ([], Returned example_json))
    by (unfold parse_body; rewrite Ht, Hp; reflexivity).
  assert (E : main env fetch parse
              = ([fetch_call (the_request env);
                  console_log (js "CloudMonitor baseline=" ++ baseline env
                               ++ js " risk=HIGH pairs=2 issues=1");
                  console_log (js "Pairs: 1 HIGH / 0 MED / 1 LOW");
                  console_log ([10; 10006] ++ js " b (HIGH)");
                  console_log (js "  - missing snapshot for production app")]
                 ++ (if annotate env
                     then [console_log
                             (js "::error::b: missing snapshot for production app")]
                     else [])
                 ++ [console_error
                       (js "CloudMonitor: failing because risk=HIGH >= fail_on=HIGH")],
                 Exited 1%Z)).
  { rewrite (main_report env fetch parse res _ Hk Hu Hf Hb Hok).
    unfold report, decide, print_pair, print_issue. rewrite Hfail.
    destruct (annotate env); reflexivity. }
  split; [exact E|]. split; [reflexivity|].
  unfold run. rewrite E. reflexivity.
Qed.

Lemma example_response_report_witness :
  let env := [(js "INPUT_API_KEY", js "secret");
              (js "INPUT_API_URL", js "https://api.example");
              (js "INPUT_FAIL_ON", js "high")] in
  let res := {| res_status := 200; res_text := example_text |} in
  let parse := fun s => if str_eqb s example_text then Some example_json else None in
  snd (run env (fun _ => Resolved res) parse) = 1%Z.
Proof.
  intros env res parse.
  refine (proj2 (proj2 (example_response_report env (fun _ => Resolved res)
                          parse res _ _ eq_refl eq_refl eq_refl eq_refl eq_refl)));
    discriminate.
Defined.
(** ** The two loops over the pairs *)

Lemma bump_comm (a b : jsstring) (c : counters) :
  bump a (bump b c) = bump b (bump a c).
Proof.
  unfold bump.
  destruct (str_eqb a (js "high")), (str_eqb a (js "medium")),
    (str_eqb a (js "low")), (str_eqb b (js "high")),
    (str_eqb b (js "medium")), (str_eqb b (js "low"));
    reflexivity.
Qed.

Lemma bump_counts_once (r : jsstring) (c : counters) :
  In r levels ->
  count_of r (bump r c) = (count_of r c + 1)%Z
  /\ forall lvl, lvl <> r -> count_of lvl (bump r c) = count_of lvl c.
Proof.
  intros [<-|[<-|[<-|[]]]]; (split; [reflexivity|]); intros lvl Hl;
    apply str_eqb_neq in Hl; unfold count_of, bump; simpl str_eqb;
    cbv iota; simpl;
    repeat match goal with |- context [str_eqb lvl ?w] =>
             destruct (str_eqb lvl w) eqn:? end;
    congruence.
Qed.

Lemma tally_adds (acc : counters * Z) (entry : jsstring * value) :
  tally acc entry
  = let* r := normalizeRisk (get_opt (snd entry) (js "risk")) in
    Ok (bump r (fst acc),
        (snd acc + Z.of_nat (List.length (pair_issues (snd entry))))%Z).
Proof.
  unfold tally, pair_issues.
  destruct (normalizeRisk _); [|reflexivity]. simpl. f_equal. f_equal. f_equal.
  destruct (isArray (get_opt (snd entry) (js "issues"))) eqn:E; [|reflexivity].
  destruct (snd entry) as [| |b|n|s|l|props]; try discriminate E.
  simpl in *. destruct (lookup (js "issues") props); try discriminate E.
  reflexivity.
Qed.

Lemma tally_all_app (l1 l2 : list (jsstring * value)) (acc : counters * Z) :
  tally_all (l1 ++ l2) acc = let* acc' := tally_all l1 acc in tally_all l2 acc'.
Proof.
  revert acc. induction l1 as [|e l1 IH]; intros acc; [reflexivity|].
  simpl. destruct (tally acc e); simpl; [apply IH | reflexivity].
Qed.

Lemma tally_all_bump (l : list (jsstring * value)) (r : jsstring)
      (c c' : counters) (n n' : Z) :
  tally_all l (c, n) = Ok (c', n') ->
  tally_all l (bump r c, n) = Ok (bump r c', n').
Proof.
  revert c n. induction l as [|e l IH]; intros c n; simpl.
  - intros H. injection H as <- <-. reflexivity.
  - rewrite !tally_adds. cbn [fst snd].
    destruct (normalizeRisk _) as [re|x]; simpl; [|discriminate].
    rewrite bump_comm. apply IH.
Qed.

Lemma for_of_app {A} (l1 l2 : list A) (body : A -> M unit) :
  for_of (l1 ++ l2) body = (for_of l1 body ;; for_of l2 body).
Proof.
  induction l1 as [|x l1 IH]; cbn [for_of app].
  - now rewrite bind_ret.
  - now rewrite IH, bind_assoc.
Qed.
(** ** The exit code *)

Lemma bind_exited {A B} (m : M A) (k : A -> M B) (c : Z) :
  snd (bind m k) = Exited c ->
  snd m = Exited c \/ exists a, snd m = Returned a /\ snd (k a) = Exited c.
Proof.
  destruct m as [t [a|c'|e]]; simpl; intros H.
  - destruct (k a) as [t' o] eqn:E; simpl in H. subst o.
    right; exists a; rewrite E; auto.
  - left; congruence.
  - discriminate H.
Qed.

Lemma no_exit_bind {A B} (m : M A) (k : A -> M B) :
  no_exit m -> (forall a, no_exit (k a)) -> no_exit (bind m k).
Proof.
  intros Hm Hk c H. apply bind_exited in H as [H|(a & _ & H)].
  - exact (Hm c H).
  - exact (Hk a c H).
Qed.

Lemma no_exit_emit (e : event) : no_exit (emit e).
Proof. intros c; discriminate. Qed.

Lemma no_exit_ret {A} (a : A) : no_exit (ret a).
Proof. intros c; discriminate. Qed.

Lemma no_exit_lift {A} (r : result A) : no_exit (lift r).
Proof. destruct r; intros c; discriminate. Qed.

Lemma no_exit_when (b : bool) (body : M unit) :
  no_exit body -> no_exit (when b body).
Proof. destruct b; [auto | intros _; apply no_exit_ret]. Qed.

Lemma no_exit_for_of {A} (l : list A) (body : A -> M unit) :
  (forall x, no_exit (body x)) -> no_exit (for_of l body).
Proof.
  intros H. induction l as [|x l IH]; cbn [for_of].
  - apply no_exit_ret.
  - apply no_exit_bind; auto.
Qed.

Lemma no_exit_print_issue env pairName r issue :
  no_exit (print_issue env pairName r issue).
Proof.
  unfold print_issue.
  apply no_exit_bind; [apply no_exit_lift|]. intros msg.
  apply no_exit_bind; [apply no_exit_lift|]. intros text.
  apply no_exit_bind; [apply no_exit_emit|]. intros _.
  apply no_exit_when, no_exit_bind; [apply no_exit_lift|]. intros sev.
  apply no_exit_bind; [apply no_exit_lift|]. intros text'.
  apply no_exit_emit.
Qed.

Lemma no_exit_print_pair env entry : no_exit (print_pair env entry).
Proof.
  unfold print_pair. apply no_exit_bind; [apply no_exit_lift|]. intros r.
  destruct (if isArray _ then _ else _).
  - apply no_exit_ret.
  - apply no_exit_bind; [apply no_exit_emit|]. intros _.
    apply no_exit_for_of. intros issue. apply no_exit_print_issue.
Qed.

Lemma rank_defined (r : jsstring) :
  In r levels -> exists n, severityRank r = Some n /\ (1 <= n <= 3)%Z.
Proof.
  intros [<-|[<-|[<-|[]]]]; eexists; (split; [reflexivity | lia]).
Qed.

Lemma lift_returned {A} (r : result A) (a : A) :
  snd (lift r) = Returned a -> r = Ok a.
Proof. destruct r; simpl; intros H; [injection H as -> | discriminate]; auto. Qed.

Lemma failOn_level env : In (failOn env) levels.
Proof. apply normalize_text_level. Qed.

(** When the report leaves through [process.exit], the code is the outcome
    of comparing the ranks of the two normalized levels. *)
Lemma report_exit env json t code :
  report env json = (t, Exited code) ->
  exists riskv globalRisk g f,
    member json (js "risk") = Ok riskv
    /\ normalizeRisk riskv = Ok globalRisk
    /\ severityRank globalRisk = Some g
    /\ severityRank (failOn env) = Some f
    /\ code = (if (f <=? g)%Z then 1 else 0)%Z.
Proof.
  intros H. apply (f_equal snd) in H. cbn [snd] in H. unfold report in H.
  apply bind_exited in H as [H|(riskv & Hr & H)];
    [exfalso; exact (no_exit_lift _ _ H)|].
  apply bind_exited in H as [H|(globalRisk & Hn & H)];
    [exfalso; exact (no_exit_lift _ _ H)|].
  apply bind_exited in H as [H|(pairs0 & _ & H)];
    [exfalso; exact (no_exit_lift _ _ H)|].
  apply bind_exited in H as [H|(entries & _ & H)];
    [exfalso; exact (no_exit_lift _ _ H)|].
  apply bind_exited in H as [H|(summary & _ & H)];
    [exfalso; exact (no_exit_lift _ _ H)|].
  apply bind_exited in H as [H|(_ & _ & H)]; [discriminate H|].
  apply bind_exited in H as [H|(_ & _ & H)]; [discriminate H|].
  apply bind_exited in H as [H|(_ & _ & H)].
  { exfalso. revert H. apply no_exit_for_of. intros e. apply no_exit_print_pair. }
  rewrite decide_eq in H.
  apply lift_returned in Hr, Hn.
  destruct (rank_defined _ (normalizeRisk_level _ _ Hn)) as (g & Hg & _).
  destruct (rank_defined _ (failOn_level env)) as (f & Hf & _).
  exists riskv, globalRisk, g, f. repeat split; try assumption.
  rewrite Hg, Hf in H. simpl rank_ge in H.
  destruct (f <=? g)%Z; simpl in H; congruence.
Qed.

Lemma main_exit env fetch parse t code :
  main env fetch parse = (t, Exited code) ->
  exists res json,
    fetch (the_request env) = Resolved res
    /\ snd (parse_body parse res) = Returned json
    /\ exists t', report env json = (t', Exited code).
Proof.
  intros H. apply (f_equal snd) in H. cbn [snd] in H. unfold main in H.
  apply bind_exited in H as [H|(_ & _ & H)].
  { exfalso. revert H. apply no_exit_when. intros c; discriminate. }
  apply bind_exited in H as [H|(_ & _ & H)].
  { exfalso. revert H. apply no_exit_when. intros c; discriminate. }
  apply bind_exited in H as [H|(res & Hres & H)].
  { exfalso. revert H. unfold await_fetch.
    apply no_exit_bind; [apply no_exit_emit|]. intros _.
    destruct (fetch _); intros c; discriminate. }
  apply bind_exited in H as [H|(json & Hjson & H)].
  { exfalso. revert H. unfold parse_body.
    destruct (truthy _); [destruct (parse _)|]; discriminate. }
  apply bind_exited in H as [H|(_ & _ & H)].
  { exfalso. revert H. apply no_exit_when.
    apply no_exit_bind; [apply no_exit_lift|]. intros msg c; discriminate. }
  exists res, json. split; [|split; [exact Hjson|]].
  - unfold await_fetch in Hres. rewrite bind_emit in Hres. cbn [snd] in Hres.
    destruct (fetch (the_request env)); simpl in Hres; congruence.
  - destruct (report env json) as [t' o]. exists t'. simpl in H. now subst.
Qed.

(** C8. The operands of the exit decision are always levels of known
    rank: whatever normalization returns is a level whose rank is 1, 2 or 3,
    the threshold is what normalization returns for the input, any two levels
    are comparable, and whenever the process leaves through the decision its
    code is the comparison of the ranks of the normalized top-level risk and
    the normalized threshold. *)
Theorem compared_risks_are_ranked :
  (forall v r,
      normalizeRisk v = Ok r ->
      exists n, severityRank r = Some n /\ (1 <= n <= 3)%Z)
  /\ (forall env,
         normalizeRisk (JStr (getInput env (js "fail_on") (js "high")))
         = Ok (failOn env)
         /\ In (failOn env) levels)
  /\ (forall a b,
         In a levels -> In b levels ->
         rank_ge (severityRank a) (severityRank b) = true
         \/ rank_ge (severityRank b) (severityRank a) = true)
  /\ (forall env fetch parse t code,
         main env fetch parse = (t, Exited code) ->
         exists res json riskv globalRisk g f,
           fetch (the_request env) = Resolved res
           /\ snd (parse_body parse res) = Returned json
           /\ member json (js "risk") = Ok riskv
           /\ normalizeRisk riskv = Ok globalRisk
           /\ severityRank globalRisk = Some g
           /\ severityRank (failOn env) = Some f
           /\ rank_ge (severityRank globalRisk) (severityRank (failOn env))
              = (f <=? g)%Z
           /\ code = (if (f <=? g)%Z then 1 else 0)%Z).
Proof.
  split; [intros v r H; apply rank_defined, (normalizeRisk_level _ _ H)|].
  split; [intros env; split; [apply normalizeRisk_JStr | apply failOn_level]|].
  split.
  - intros a b Ha Hb.
    destruct (rank_defined a Ha) as (x & -> & _).
    destruct (rank_defined b Hb) as (y & -> & _).
    simpl. destruct (Z.leb_spec y x); [auto|].
    right. apply Z.leb_le. lia.
  - intros env fetch parse t code H.
    destruct (main_exit _ _ _ _ _ H) as (res & json & Hf & Hj & t' & Hr).
    destruct (report_exit _ _ _ _ Hr)
      as (riskv & globalRisk & g & f & Hm & Hn & Hg & Hfo & Hc).
    exists res, json, riskv, globalRisk, g, f. repeat split; try assumption.
    rewrite Hg, Hfo. reflexivity.
Qed.

Lemma compared_risks_are_ranked_witness :
  let env := [(js "INPUT_API_KEY", js "secret");
              (js "INPUT_API_URL", js "https://api.example");
              (js "INPUT_FAIL_ON", js "Medium")] in
  let res := {| res_status := 200; res_text := example_text |} in
  let parse := fun _ : jsstring => Some example_json in
  exists t,
    main env (fun _ => Resolved res) parse = (t, Exited 1%Z)
    /\ exists res' json riskv globalRisk g f,
        Resolved res = Resolved res'
        /\ snd (parse_body parse res') = Returned json
        /\ member json (js "risk") = Ok riskv
        /\ normalizeRisk riskv = Ok globalRisk
        /\ severityRank globalRisk = Some g
        /\ severityRank (failOn env) = Some f
        /\ rank_ge (severityRank globalRisk) (severityRank (failOn env))
           = (f <=? g)%Z
        /\ 1%Z = (if (f <=? g)%Z then 1 else 0)%Z.
Proof.
  intros env res parse. eexists. split; [reflexivity|].
  exact (proj2 (proj2 (proj2 compared_risks_are_ranked))
           env (fun _ => Resolved res) parse _ 1%Z eq_refl).
Defined.

Lemma bind_returned {A B} (m : M A) (k : A -> M B) (a : A) :
  snd m = Returned a -> snd (bind m k) = snd (k a).
Proof.
  destruct m as [t o]; simpl; intros ->. destruct (k a); reflexivity.
Qed.

Lemma for_of_returns {A} (l : list A) (body : A -> M unit) :
  (forall x, In x l -> snd (body x) = Returned tt) ->
  snd (for_of l body) = Returned tt.
Proof.
  induction l as [|x l IH]; intros H; [reflexivity|]. cbn [for_of].
  rewrite (bind_returned _ _ tt); [|apply H; left; reflexivity].
  apply IH. intros y Hy. apply H. right; exact Hy.
Qed.

(** What the script reads out of a value without an own [toString] has
    none either. *)
Lemma plain_all_props (props : list (jsstring * value)) :
  (fix all (ps : list (jsstring * value)) : bool :=
     match ps with
     | [] => true
     | (_, x) :: r => plain x && all r
     end) props = true ->
  Forall (fun e => plain (snd e) = true) props.
Proof.
  induction props as [|[k x] props IH]; intros H; [constructor|].
  apply andb_true_iff in H as [Hx H]. constructor; auto.
Qed.

Lemma plain_indexed (l : list value) (i : Z) :
  forallb plain l = true ->
  Forall (fun e => plain (snd e) = true) (indexed i l).
Proof.
  revert i. induction l as [|x l IH]; intros i H; [constructor|].
  simpl in H. apply andb_true_iff in H as [Hx H]. constructor; auto.
Qed.

Lemma plain_entries (v : value) (es : list (jsstring * value)) :
  plain v = true -> Object_entries v = Ok es ->
  Forall (fun e => plain (snd e) = true) es.
Proof.
  destruct v as [| |b|n|s|l|props]; simpl; intros Hp H;
    try discriminate H; injection H as <-; try constructor.
  - apply plain_indexed. clear. induction s; simpl; auto.
  - apply plain_indexed, Hp.
  - apply andb_true_iff in Hp as [_ Hp]. apply plain_all_props, Hp.
Qed.

Lemma plain_issueToMessage (issue : value) :
  plain issue = true ->
  exists m, issueToMessage issue = Ok m /\ plain m = true.
Proof.
  intros Hp. unfold issueToMessage.
  destruct (truthy issue && typeof_object issue) eqn:Ho.
  - exists (or_else (get issue (js "message"))
              (or_else (get issue (js "title")) (JSON_stringify issue))).
    split.
    + destruct issue; try reflexivity. simpl in Ho.
      rewrite andb_false_r in Ho. discriminate Ho.
    + unfold or_else. destruct (truthy (get issue (js "message")));
        [apply plain_get, Hp|].
      destruct (truthy (get issue (js "title"))); [apply plain_get, Hp|].
      unfold JSON_stringify. destruct (SerializeJSON issue); reflexivity.
  - destruct (plain_renders issue Hp) as [t Ht]. rewrite Ht.
    destruct issue; eexists; (split; [reflexivity | reflexivity]).
Qed.

Lemma print_issue_returns env pairName r issue :
  annotate env = false -> plain issue = true ->
  snd (print_issue env pairName r issue) = Returned tt.
Proof.
  intros Ha Hp. unfold print_issue, when.
  destruct (plain_issueToMessage issue Hp) as (m & Hi & Hm).
  rewrite Hi, bind_lift_ok.
  destruct (plain_renders m Hm) as [t ->].
  rewrite bind_lift_ok, bind_emit, Ha. reflexivity.
Qed.

Lemma plain_pair_issues (data : value) :
  plain data = true -> forallb plain (pair_issues data) = true.
Proof.
  intros Hp. unfold pair_issues.
  destruct (isArray (get_opt data (js "issues"))) eqn:E; [|reflexivity].
  pose proof (plain_get data (js "issues") Hp) as Hg.
  destruct (get data (js "issues")); try reflexivity. exact Hg.
Qed.

Lemma print_pair_returns env entry :
  annotate env = false -> plain (snd entry) = true ->
  snd (print_pair env entry) = Returned tt.
Proof.
  intros Ha Hp. unfold print_pair.
  destruct (normalizeRisk_plain _ (plain_get_opt _ (js "risk") Hp)) as [r ->].
  rewrite bind_lift_ok. fold (pair_issues (snd entry)).
  pose proof (plain_pair_issues _ Hp) as Hi.
  destruct (pair_issues (snd entry)) as [|i issues] eqn:Ei; [reflexivity|].
  rewrite (bind_returned _ _ tt) by reflexivity.
  apply for_of_returns. intros issue Hin.
  apply print_issue_returns; [exact Ha|].
  rewrite forallb_forall in Hi. apply Hi, Hin.
Qed.

Lemma tally_all_plain (es : list (jsstring * value)) (acc : counters * Z) :
  Forall (fun e => plain (snd e) = true) es ->
  exists s, tally_all es acc = Ok s.
Proof.
  intros H. revert acc. induction H as [|e es He _ IH]; intros acc; simpl.
  - eexists; reflexivity.
  - rewrite tally_adds.
    destruct (normalizeRisk_plain _ (plain_get_opt _ (js "risk") He)) as [r ->].
    simpl. apply IH.
Qed.

Lemma pairs_have_entries (v : value) :
  exists es, Object_entries (or_else v (JObj [])) = Ok es.
Proof.
  destruct v as [| |[|]|n|[|c s]|l|props]; unfold or_else; simpl;
    try (eexists; reflexivity).
  destruct (negb _); eexists; reflexivity.
Qed.

(** With annotation off and a parsed body other than [null] in which no
    object has an own [toString], the report always reaches the decision. *)
Lemma report_decides env json :
  annotate env = false -> json <> JNull -> json <> JUndefined ->
  plain json = true ->
  exists globalRisk,
    normalizeRisk (get json (js "risk")) = Ok globalRisk
    /\ snd (report env json)
       = Exited (if rank_ge (severityRank globalRisk)
                            (severityRank (failOn env))
                 then 1 else 0)%Z.
Proof.
  intros Ha Hn Hu Hp. unfold report.
  assert (Hm : forall k, member json k = Ok (get json k))
    by (intros k; destruct json; try reflexivity; contradiction).
  destruct (normalizeRisk_plain _ (plain_get _ (js "risk") Hp)) as [g Hg].
  exists g. split; [exact Hg|].
  rewrite !Hm, bind_lift_ok, Hg, bind_lift_ok, bind_lift_ok.
  destruct (pairs_have_entries (get json (js "pairs"))) as [es Hes].
  rewrite Hes, bind_lift_ok.
  assert (Hpl : Forall (fun e => plain (snd e) = true) es).
  { apply (plain_entries (or_else (get json (js "pairs")) (JObj []))); auto.
    unfold or_else. destruct (truthy _); [apply plain_get, Hp | reflexivity]. }
  destruct (tally_all_plain es (no_counts, 0%Z) Hpl) as [s ->].
  rewrite bind_lift_ok, !bind_emit. cbn [snd].
  rewrite (bind_returned _ _ tt).
  - rewrite decide_eq. destruct (rank_ge _ _); reflexivity.
  - apply for_of_returns. intros e He. apply print_pair_returns; [exact Ha|].
    rewrite Forall_forall in Hpl. apply Hpl, He.
Qed.

(** C1: the exit code at a response whose issue message is a number.  The
    body parses, the status is 200, the top-level risk "low" ranks below the
    threshold "high", and annotation is on by default; the annotation of the
    issue calls [toLowerCase] on the number 5, the [TypeError] reaches the
    top-level [catch], and the process exits with code 1 without the
    threshold line. *)
Theorem numeric_message_exit_code :
  forall fetch parse res,
    fetch (the_request plain_env) = Resolved res ->
    res_ok res = true ->
    res_text res = numeric_message_text ->
    parse numeric_message_text = Some numeric_message_json ->
    run plain_env fetch parse
    = ([fetch_call (the_request plain_env);
        console_log (js "CloudMonitor baseline=production risk=LOW pairs=1 issues=1");
        console_log (js "Pairs: 0 HIGH / 0 MED / 1 LOW");
        console_log ([10; 10004] ++ js " a (LOW)");
        console_log (js "  - 5");
        console_error_stack TypeError], 1%Z)
    /\ normalizeRisk (get numeric_message_json (js "risk")) = Ok (js "low")
    /\ rank_ge (severityRank (js "low")) (severityRank (failOn plain_env))
       = false.
Proof.
  intros fetch parse res Hf Hok Ht Hp. split; [|split; reflexivity].
  assert (Hb : parse_body parse res = ([], Returned numeric_message_json))
    by (unfold parse_body; rewrite Ht, Hp; reflexivity).
  unfold run.
  rewrite (main_report plain_env fetch parse res _
             ltac:(discriminate) ltac:(discriminate) Hf Hb Hok).
  reflexivity.
Qed.

Lemma numeric_message_exit_code_witness :
  let res := {| res_status := 200; res_text := numeric_message_text |} in
  let parse := fun s => if str_eqb s numeric_message_text
                        then Some numeric_message_json else None in
  snd (run plain_env (fun _ => Resolved res) parse) = 1%Z.
Proof.
  intros res parse.
  exact (f_equal snd
           (proj1 (numeric_message_exit_code (fun _ => Resolved res) parse res
                     eq_refl eq_refl eq_refl eq_refl))).
Defined.

(** The same exit on the body [null]: reading its [risk] throws. *)
Lemma null_body_exit_code :
  forall fetch parse res,
    fetch (the_request plain_env) = Resolved res ->
    res_ok res = true ->
    res_text res = js "null" ->
    parse (js "null") = Some JNull ->
    run plain_env fetch parse
    = ([fetch_call (the_request plain_env); console_error_stack TypeError], 1%Z).
Proof.
  intros fetch parse res Hf Hok Ht Hp.
  assert (Hb : parse_body parse res = ([], Returned JNull))
    by (unfold parse_body; rewrite Ht, Hp; reflexivity).
  unfold run.
  rewrite (main_report plain_env fetch parse res _
             ltac:(discriminate) ltac:(discriminate) Hf Hb Hok).
  reflexivity.
Qed.

(** C10: the run at a response whose pair has no [issues] and, as its
    risk, an object with a property named [toString].  The body parses and the
    status is 200; in the first loop [String] throws on the pair's risk, the
    [TypeError] reaches the top-level [catch], and the process exits with
    code 1 before any line is printed: the pair is counted nowhere. *)
Theorem object_risk_exit_code :
  forall fetch parse res,
    fetch (the_request plain_env) = Resolved res ->
    res_ok res = true ->
    res_text res = object_risk_text ->
    parse object_risk_text = Some object_risk_json ->
    run plain_env fetch parse
    = ([fetch_call (the_request plain_env); console_error_stack TypeError], 1%Z)
    /\ (let data := get (get object_risk_json (js "pairs")) (js "a") in
        isArray (get_opt data (js "issues")) = false
        /\ forall acc, tally acc (js "a", data) = Raise TypeError).
Proof.
  intros fetch parse res Hf Hok Ht Hp. split.
  - assert (Hb : parse_body parse res = ([], Returned object_risk_json))
      by (unfold parse_body; rewrite Ht, Hp; reflexivity).
    unfold run.
    rewrite (main_report plain_env fetch parse res _
               ltac:(discriminate) ltac:(discriminate) Hf Hb Hok).
    reflexivity.
  - split; [reflexivity | intros acc; reflexivity].
Qed.

Lemma object_risk_exit_code_witness :
  let res := {| res_status := 200; res_text := object_risk_text |} in
  let parse := fun s => if str_eqb s object_risk_text
                        then Some object_risk_json else None in
  snd (run plain_env (fun _ => Resolved res) parse) = 1%Z.
Proof.
  intros res parse.
  exact (f_equal snd
           (proj1 (object_risk_exit_code (fun _ => Resolved res) parse res
                     eq_refl eq_refl eq_refl eq_refl))).
Defined.
(** * Further properties of the script *)

(** ** parseCsv *)

Lemma trimStart_clean (s : jsstring) :
  match s with [] => True | c :: _ => is_space c = false end ->
  trimStart s = s.
Proof. destruct s as [|c s]; simpl; [reflexivity | intros ->; reflexivity]. Qed.

Lemma trim_clean (s : jsstring) :
  match s with [] => True | c :: _ => is_space c = false end ->
  match rev s with [] => True | c :: _ => is_space c = false end ->
  trim s = s.
Proof.
  intros Hh Hl. unfold trim, trimEnd.
  rewrite (trimStart_clean s Hh), (trimStart_clean (rev s) Hl).
  apply rev_involutive.
Qed.

Lemma trim_sub (s : jsstring) (c : N) : In c (trim s) -> In c s.
Proof.
  intros H. destruct (trim_spec s) as [(a & b & E & _) _].
  rewrite E. apply in_or_app; right. apply in_or_app; left. exact H.
Qed.

Lemma parseCsv_clean (input : jsstring) : Forall clean_entry (parseCsv input).
Proof.
  unfold parseCsv. apply Forall_forall. intros e He.
  apply filter_In in He as [He Hne]. apply in_map_iff in He as (p & <- & Hp).
  pose proof (split_no_sep 44 input) as Hs.
  rewrite Forall_forall in Hs. specialize (Hs p Hp).
  destruct (trim_spec p) as (_ & Hh & Hl).
  repeat split; auto.
  - intros E. rewrite E in Hne. discriminate.
  - intros Hc. apply Hs, trim_sub, Hc.
Qed.

Lemma split_without_sep (sep : N) (s : jsstring) :
  ~ In sep s -> split sep s = [s].
Proof.
  induction s as [|c s IH]; intros H; [reflexivity|]. simpl.
  destruct (N.eqb_spec c sep) as [->|Hc]; [exfalso; apply H; left; reflexivity|].
  rewrite IH; [reflexivity|]. intros Hs; apply H; right; exact Hs.
Qed.

Lemma split_app_sep (sep : N) (x rest : jsstring) :
  ~ In sep x -> split sep (x ++ sep :: rest) = x :: split sep rest.
Proof.
  induction x as [|c x IH]; intros H; simpl.
  - now rewrite N.eqb_refl.
  - destruct (N.eqb_spec c sep) as [->|Hc]; [exfalso; apply H; left; reflexivity|].
    rewrite IH; [reflexivity|]. intros Hs; apply H; right; exact Hs.
Qed.

Lemma split_join (sep : N) (l : list jsstring) :
  l <> [] -> Forall (fun p => ~ In sep p) l -> split sep (join [sep] l) = l.
Proof.
  induction l as [|x l IH]; intros Hn Hl; [contradiction|].
  inversion Hl as [|? ? Hx Hl']; subst.
  destruct l as [|y l].
  - simpl. apply split_without_sep, Hx.
  - change (join [sep] (x :: y :: l)) with (x ++ sep :: join [sep] (y :: l)).
    rewrite split_app_sep by exact Hx. f_equal. apply IH; [discriminate | exact Hl'].
Qed.

Lemma parseCsv_of_clean (l : list jsstring) :
  Forall clean_entry l -> parseCsv (join (js ",") l) = l.
Proof.
  intros H. destruct l as [|x l]; [reflexivity|].
  unfold parseCsv. change (js ",") with [44].
  rewrite split_join.
  - generalize (x :: l) H. clear. intros l H.
    induction H as [|e l (Hne & _ & Hh & Hl) _ IH]; [reflexivity|].
    simpl. rewrite (trim_clean e Hh Hl).
    destruct e; [contradiction|]. simpl. now f_equal.
  - discriminate.
  - eapply Forall_impl; [|exact H]. intros e (_ & Hc & _); exact Hc.
Qed.

(** X1. Every entry [parseCsv] returns is not empty, holds no comma, and
    neither starts nor ends with white space. *)
Theorem parseCsv_entries_clean :
  forall input : jsstring, Forall clean_entry (parseCsv input).
Proof. exact parseCsv_clean. Qed.

(** X2. Parsing is the inverse of joining with commas on clean entries:
    a list of entries that are not empty, hold no comma and have no white
    space at their ends is read back as it is from its comma-joined text; so
    parsing the joined result of a parse gives that result again. *)
Theorem parseCsv_join_round_trip :
  (forall l : list jsstring,
      Forall clean_entry l -> parseCsv (join (js ",") l) = l)
  /\ (forall input : jsstring,
         parseCsv (join (js ",") (parseCsv input)) = parseCsv input).
Proof.
  split; [exact parseCsv_of_clean|].
  intros input. apply parseCsv_of_clean, parseCsv_clean.
Qed.

Lemma parseCsv_join_round_trip_witness :
  Forall clean_entry [js "staging"; js "eu west"; js "qa"]
  /\ parseCsv (js "staging,eu west,qa") = [js "staging"; js "eu west"; js "qa"].
Proof.
  assert (H : Forall clean_entry [js "staging"; js "eu west"; js "qa"]).
  { repeat constructor; try discriminate; try reflexivity;
      simpl; intros C; repeat (destruct C as [C|C]; [discriminate C|]);
      exact C. }
  split; [exact H|].
  exact (proj1 parseCsv_join_round_trip _ H).
Defined.

(** ** The API address *)

Lemma strip_trailing_slash_app (s : jsstring) (c : N) :
  strip_trailing_slash (s ++ [c]) = if c =? 47 then s else s ++ [c].
Proof.
  induction s as [|d s IH]; simpl.
  - destruct (c =? 47); reflexivity.
  - rewrite IH. destruct (s ++ [c]) eqn:E.
    + destruct s; discriminate E.
    + rewrite <- E. destruct (c =? 47); reflexivity.
Qed.

(** X3. One slash at the end of the address is dropped and nothing else
    changes: the address with one more slash at its end gives the address
    itself, and one that ends otherwise is kept.  Hence [apiUrl] is empty, and
    reported as missing, exactly when the input is empty or is the single
    slash. *)
Theorem trailing_slash_stripped_once :
  (forall s, strip_trailing_slash (s ++ js "/") = s)
  /\ (forall s c, c <> 47 -> strip_trailing_slash (s ++ [c]) = s ++ [c])
  /\ (forall env,
         apiUrl env = []
         <-> getInput env (js "api_url") [] = []
             \/ getInput env (js "api_url") [] = js "/").
Proof.
  split; [|split].
  - intros s. change (js "/") with [47]. now rewrite strip_trailing_slash_app.
  - intros s c Hc. rewrite strip_trailing_slash_app.
    destruct (N.eqb_spec c 47); [contradiction | reflexivity].
  - intros env. unfold apiUrl.
    destruct (getInput env (js "api_url") []) as [|c s] using rev_ind.
    + simpl; tauto.
    + rewrite strip_trailing_slash_app. destruct (N.eqb_spec c 47) as [->|Hc].
      * split.
        -- intros ->. right; reflexivity.
        -- intros [H|H]; [destruct s; discriminate H|].
           destruct s as [|d s]; [reflexivity|].
           destruct s; discriminate H.
      * split.
        -- intros H. destruct s; discriminate H.
        -- intros [H|H]; [destruct s; discriminate H|].
           destruct s as [|d s]; [injection H as H; contradiction|].
           destruct s; discriminate H.
Qed.

Lemma trailing_slash_stripped_once_witness :
  strip_trailing_slash (js "https://api.example" ++ [46]) = js "https://api.example.".
Proof.
  apply (proj1 (proj2 trailing_slash_stripped_once) (js "https://api.example") 46).
  discriminate.
Defined.
(** ** Levels, once more *)

(** X4. Normalizing a normalized level changes nothing: the script
    normalizes a pair's risk and hands the result to
    [inferSeverityFromIssue], which normalizes it again. *)
Theorem normalizeRisk_idempotent :
  forall v r, normalizeRisk v = Ok r -> normalizeRisk (JStr r) = Ok r.
Proof.
  intros v r H. rewrite normalizeRisk_JStr. f_equal.
  apply normalize_text_fixed, (normalizeRisk_level v r H).
Qed.

Lemma normalizeRisk_idempotent_witness :
  normalizeRisk (JArr [JStr (js "MEDIUM")]) = Ok (js "medium")
  /\ normalizeRisk (JStr (js "medium")) = Ok (js "medium").
Proof.
  split; [reflexivity|].
  exact (normalizeRisk_idempotent (JArr [JStr (js "MEDIUM")]) (js "medium")
           eq_refl).
Defined.

Lemma plain_false : Forall plain_lower (js "false").
Proof. repeat constructor; simpl; lia. Qed.

(** X5. Annotation is off exactly when the [annotate] input spells
    "false" in some mix of upper and lower case; any other value, the empty
    string and surrounding blanks included, and an absent input leave it
    on. *)
Theorem annotate_off_iff_false :
  (forall env,
      annotate env = false
      <-> spells (getInput env (js "annotate") (js "true")) (js "false"))
  /\ (forall env,
         env_lookup (js "INPUT_ANNOTATE") env = None -> annotate env = true)
  /\ (forall env,
         env_lookup (js "INPUT_ANNOTATE") env = Some (js " false") ->
         annotate env = true).
Proof.
  split; [|split].
  - intros env. unfold annotate.
    rewrite <- (toLowerCase_spells _ plain_false), negb_false_iff.
    apply str_eqb_eq.
  - intros env H. unfold annotate, getInput.
    change (js "INPUT_" ++ toUpperCase (replace_spaces (js "annotate")))
      with (js "INPUT_ANNOTATE").
    rewrite H. reflexivity.
  - intros env H. unfold annotate, getInput.
    change (js "INPUT_" ++ toUpperCase (replace_spaces (js "annotate")))
      with (js "INPUT_ANNOTATE").
    rewrite H. reflexivity.
Qed.

Lemma annotate_off_iff_false_witness :
  annotate [(js "INPUT_ANNOTATE", js "FALSE")] = false
  /\ annotate [(js "INPUT_API_KEY", js "secret")] = true.
Proof.
  split.
  - apply (proj1 annotate_off_iff_false).
    repeat constructor; simpl; (left; reflexivity) || (right; reflexivity).
  - apply (proj1 (proj2 annotate_off_iff_false)). reflexivity.
Defined.

(** ** Issues, once more *)

Lemma stringify_object_truthy (issue : value) :
  truthy issue && typeof_object issue = true ->
  exists c s, JSON_stringify issue = JStr (c :: s).
Proof.
  destruct issue as [| |[|]|n|s|l|props]; simpl;
    rewrite ?andb_false_r; try discriminate;
    intros _; eexists; eexists; reflexivity.
Qed.

Lemma ToString_primitive_nonempty (v : value) :
  truthy v && typeof_object v = false -> typeof_string v = false ->
  exists c s, ToString v = Ok (c :: s).
Proof.
  destruct v as [| |[|]|n|s|l|props]; simpl; try discriminate; intros _ _;
    try (eexists; eexists; reflexivity).
  destruct (number_toString_head n) as (c & r & E & _).
  exists c, r. rewrite E. reflexivity.
Qed.

Lemma issueToMessage_object (issue : value) :
  truthy issue && typeof_object issue = true ->
  issueToMessage issue
  = Ok (if truthy (get issue (js "message")) then get issue (js "message")
        else if truthy (get issue (js "title")) then get issue (js "title")
        else JSON_stringify issue).
Proof.
  intros H. unfold issueToMessage, or_else. rewrite H.
  destruct issue; try reflexivity. simpl in H.
  rewrite andb_false_r in H. discriminate H.
Qed.

Lemma issueToMessage_primitive (issue : value) :
  truthy issue && typeof_object issue = false ->
  typeof_string issue = false ->
  exists c s, issueToMessage issue = Ok (JStr (c :: s)).
Proof.
  intros Ho Hs. unfold issueToMessage. rewrite Ho.
  destruct (ToString_primitive_nonempty issue Ho Hs) as (c & s & E).
  exists c, s. rewrite E. destruct issue; try reflexivity.
  discriminate Hs.
Qed.

(** X6. [issueToMessage] never throws, and the message it gives is falsy
    only for the issue that is the empty string: a string is passed through
    as it is, an object or array gives its truthy [message], else its truthy
    [title], else its JSON text, and any other value its text. *)
Theorem issueToMessage_truthy :
  (forall s, issueToMessage (JStr s) = Ok (JStr s))
  /\ (forall issue,
         exists m,
           issueToMessage issue = Ok m
           /\ (truthy m = false <-> issue = JStr []))
  /\ (forall issue,
         truthy issue && typeof_object issue = true ->
         issueToMessage issue
         = Ok (if truthy (get issue (js "message"))
               then get issue (js "message")
               else if truthy (get issue (js "title"))
                    then get issue (js "title")
                    else JSON_stringify issue)).
Proof.
  split; [reflexivity|]. split; [|exact issueToMessage_object].
  intros issue. destruct (typeof_string issue) eqn:Hs.
  { destruct issue as [| |b|n|s|l|props]; try discriminate Hs.
    exists (JStr s). split; [reflexivity|].
    destruct s; split; try reflexivity; discriminate. }
  destruct (truthy issue && typeof_object issue) eqn:Ho.
  - rewrite (issueToMessage_object issue Ho). eexists. split; [reflexivity|].
    split; [|intros ->; discriminate Hs].
    intros H. exfalso.
    destruct (truthy (get issue (js "message"))) eqn:E1; [congruence|].
    destruct (truthy (get issue (js "title"))) eqn:E2; [congruence|].
    destruct (stringify_object_truthy issue Ho) as (c & s & E3).
    rewrite E3 in H. discriminate H.
  - destruct (issueToMessage_primitive issue Ho Hs) as (c & s & ->).
    eexists. split; [reflexivity|].
    split; [discriminate | intros ->; discriminate Hs].
Qed.

Lemma issueToMessage_truthy_witness :
  issueToMessage (JObj [(js "message", JStr []); (js "title", JStr (js "drift"))])
  = Ok (JStr (js "drift")).
Proof.
  exact (proj2 (proj2 issueToMessage_truthy)
           (JObj [(js "message", JStr []); (js "title", JStr (js "drift"))])
           eq_refl).
Defined.

(** Whether the message of an issue is a string. *)
Lemma issueToMessage_string_cases (issue : value) :
  exists m,
    issueToMessage issue = Ok m
    /\ typeof_string m
       = negb (truthy issue && typeof_object issue
               && truthy (or_else (get issue (js "message"))
                            (get issue (js "title")))
               && negb (typeof_string
                          (or_else (get issue (js "message"))
                             (get issue (js "title"))))).
Proof.
  destruct (truthy issue && typeof_object issue) eqn:H.
  - rewrite (issueToMessage_object issue H). eexists. split; [reflexivity|].
    unfold or_else.
    destruct (truthy (get issue (js "message"))) eqn:E1; cbv iota.
    + rewrite E1. simpl andb. now rewrite negb_involutive.
    + destruct (truthy (get issue (js "title"))) eqn:E2; cbv iota.
      * simpl andb. now rewrite negb_involutive.
      * simpl andb.
        destruct (stringify_object_truthy issue H) as (c & s & ->). reflexivity.
  - destruct (typeof_string issue) eqn:Hs.
    + destruct issue; try discriminate Hs. eexists.
      split; [reflexivity | reflexivity].
    + destruct (issueToMessage_primitive issue H Hs) as (c & s & ->).
      eexists. split; [reflexivity | reflexivity].
Qed.

(** X7. [inferSeverityFromIssue], called as the script calls it, with a
    pair risk that is a string, throws exactly in two cases: the issue has a
    truthy [severity] on which [String] throws; or it is an object or array
    without a truthy [severity] whose message as rendered is no string (its
    [message], or its [title] when the [message] is falsy, is truthy and not
    a string).  What it throws is a [TypeError], and whenever it returns, it
    returns a level. *)
Theorem inferSeverityFromIssue_throws_iff :
  forall (issue : value) (r : jsstring),
    (inferSeverityFromIssue issue (JStr r) = Raise TypeError
     <-> (truthy (get_opt issue (js "severity")) = true
          /\ ToString (get issue (js "severity")) = Raise TypeError)
         \/ (truthy (get_opt issue (js "severity")) = false
             /\ truthy issue && typeof_object issue = true
             /\ truthy (or_else (get issue (js "message"))
                          (get issue (js "title"))) = true
             /\ typeof_string
                  (or_else (get issue (js "message"))
                     (get issue (js "title"))) = false))
    /\ match inferSeverityFromIssue issue (JStr r) with
       | Ok sev => In sev levels
       | Raise e => e = TypeError
       end.
Proof.
  intros issue r.
  destruct (truthy (get_opt issue (js "severity"))) eqn:Hsev.
  - rewrite (infer_own issue (JStr r) Hsev).
    assert (Hg : truthy (get issue (js "severity")) = true)
      by (destruct issue; try discriminate Hsev; exact Hsev).
    assert (Hn : normalizeRisk (get issue (js "severity"))
                 = let* s := ToString (get issue (js "severity")) in
                   Ok (normalize_text s))
      by (unfold normalizeRisk, or_else; rewrite Hg; reflexivity).
    split.
    + rewrite Hn. split.
      * intros H. left. split; [reflexivity|].
        destruct (ToString (get issue (js "severity"))) as [t|e] eqn:E;
          [discriminate H|].
        now rewrite (ToString_raise _ _ E).
      * intros [[_ H]|[H _]]; [rewrite H; reflexivity | discriminate H].
    + destruct (normalizeRisk (get issue (js "severity"))) as [sev|e] eqn:E.
      * exact (normalizeRisk_level _ _ E).
      * exact (normalizeRisk_raise _ _ E).
  - destruct (issueToMessage_string_cases issue) as (m & Hm & Hs).
    unfold inferSeverityFromIssue. rewrite own_severity_test, Hsev, Hm.
    simpl rbind. rewrite normalizeRisk_JStr.
    destruct m as [| |b|n|m|l|props];
      simpl call_toLowerCase; simpl rbind; simpl typeof_string in Hs;
      symmetry in Hs;
      try (apply negb_false_iff in Hs;
           rewrite !andb_true_iff, negb_true_iff in Hs;
           destruct Hs as [[[Ho ->] ->] ->];
           split; [split; [intros _; right; rewrite Ho; repeat split
                          | reflexivity]
                  | reflexivity]).
    apply negb_true_iff in Hs. split.
    + split.
      * destruct (includes _ _ || includes _ _);
          [discriminate|destruct (includes _ _ || includes _ _); discriminate].
      * intros [[H _]|(_ & H1 & H2 & H3)]; [discriminate H|].
        rewrite H1, H2, H3 in Hs. discriminate Hs.
    + destruct (includes _ _ || includes _ _); [simpl; auto|].
      destruct (includes _ _ || includes _ _); [simpl; auto|].
      apply normalize_text_level.
Qed.

Lemma inferSeverityFromIssue_throws_iff_witness :
  inferSeverityFromIssue
    (JObj [(js "message", JNull); (js "title", JArr [JStr (js "drift")])])
    (JStr (js "high"))
  = Raise TypeError
  /\ inferSeverityFromIssue
       (JObj [(js "severity", JObj [(js "toString", JNum (integer 1))])])
       (JStr (js "high"))
     = Raise TypeError.
Proof.
  split.
  - apply (proj1 (inferSeverityFromIssue_throws_iff _ _)).
    right. repeat split.
  - apply (proj1 (inferSeverityFromIssue_throws_iff _ _)).
    left. split; reflexivity.
Defined.
(** ** Traces *)

Lemma emits_bind {A B} (P : event -> Prop) (m : M A) (k : A -> M B) :
  emits P m -> (forall a, emits P (k a)) -> emits P (bind m k).
Proof.
  unfold emits. destruct m as [t [a|c|e]]; simpl; auto.
  intros Hm Hk. specialize (Hk a). destruct (k a) as [t' o]; simpl in *.
  apply Forall_app; auto.
Qed.

Lemma emits_emit (P : event -> Prop) (e : event) : P e -> emits P (emit e).
Proof. intros H. repeat constructor. exact H. Qed.

Lemma emits_nothing {A} (P : event -> Prop) (o : outcome A) :
  emits P (([], o) : M A).
Proof. constructor. Qed.

Lemma emits_lift {A} (P : event -> Prop) (r : result A) : emits P (lift r).
Proof. destruct r; constructor. Qed.

Lemma emits_when (P : event -> Prop) (b : bool) (body : M unit) :
  emits P body -> emits P (when b body).
Proof. destruct b; [auto | intros _; constructor]. Qed.

Lemma emits_for_of {A} (P : event -> Prop) (l : list A) (body : A -> M unit) :
  (forall x, emits P (body x)) -> emits P (for_of l body).
Proof.
  intros H. induction l as [|x l IH]; cbn [for_of].
  - constructor.
  - apply emits_bind; auto.
Qed.

(** The detail loop prints with [console.log] only. *)
Lemma print_pair_emits (P : event -> Prop) env entry :
  (forall line, P (console_log line)) -> emits P (print_pair env entry).
Proof.
  intros HP. unfold print_pair.
  apply emits_bind; [apply emits_lift|]. intros r.
  destruct (if isArray _ then _ else _).
  - constructor.
  - apply emits_bind; [apply emits_emit, HP|]. intros _.
    apply emits_for_of. intros issue. unfold print_issue.
    apply emits_bind; [apply emits_lift|]. intros msg.
    apply emits_bind; [apply emits_lift|]. intros text.
    apply emits_bind; [apply emits_emit, HP|]. intros _.
    apply emits_when, emits_bind; [apply emits_lift|]. intros sev.
    apply emits_bind; [apply emits_lift|]. intros text'.
    apply emits_emit, HP.
Qed.

Lemma report_emits (P : event -> Prop) env json :
  (forall line, P (console_log line)) ->
  (forall line, P (console_error line)) ->
  emits P (report env json).
Proof.
  intros HL HE. unfold report.
  apply emits_bind; [apply emits_lift|]. intros riskv.
  apply emits_bind; [apply emits_lift|]. intros globalRisk.
  apply emits_bind; [apply emits_lift|]. intros pairs0.
  apply emits_bind; [apply emits_lift|]. intros entries.
  apply emits_bind; [apply emits_lift|]. intros summary.
  apply emits_bind; [apply emits_emit, HL|]. intros _.
  apply emits_bind; [apply emits_emit, HL|]. intros _.
  apply emits_bind; [apply emits_for_of; intros e; apply print_pair_emits, HL|].
  intros _. rewrite decide_eq.
  destruct (rank_ge _ _); [apply emits_emit, HE | constructor].
Qed.

Lemma parse_body_silent parse res :
  fst (parse_body parse res) = [] /\ no_exit (parse_body parse res).
Proof.
  unfold parse_body. destruct (truthy _); [destruct (parse _)|];
    (split; [reflexivity | intros c; discriminate]).
Qed.

Lemma check_status_silent res json :
  fst (check_status res json) = [] /\ no_exit (check_status res json).
Proof.
  unfold check_status, when. destruct (negb _);
    [|split; [reflexivity | intros c; discriminate]].
  destruct (if truthy _ then _ else _);
    (split; [reflexivity | intros c; discriminate]).
Qed.

(** What follows the request in [main] sends no request. *)
Lemma after_fetch_emits (P : event -> Prop) env parse res :
  (forall line, P (console_log line)) ->
  (forall line, P (console_error line)) ->
  emits P (json <- parse_body parse res ;;
           check_status res json ;; report env json).
Proof.
  intros HL HE.
  apply emits_bind.
  { unfold emits. rewrite (proj1 (parse_body_silent parse res)). constructor. }
  intros json. apply emits_bind.
  { unfold emits. rewrite (proj1 (check_status_silent res json)). constructor. }
  intros _. apply report_emits; assumption.
Qed.

(** The three ways [main] can start. *)
Lemma main_cases env fetch parse :
  (exists msg, main env fetch parse = ([], Thrown (Error msg)))
  \/ (exists e, fetch (the_request env) = Rejected e
                /\ apiKey env <> [] /\ apiUrl env <> []
                /\ main env fetch parse
                   = ([fetch_call (the_request env)], Thrown e))
  \/ (exists res, fetch (the_request env) = Resolved res
                  /\ apiKey env <> [] /\ apiUrl env <> []
                  /\ main env fetch parse
                     = let k := json <- parse_body parse res ;;
                                check_status res json ;; report env json in
                       (fetch_call (the_request env) :: fst k, snd k)).
Proof.
  destruct (apiKey env) as [|c k] eqn:Ek.
  { left. eexists. unfold main, when. rewrite Ek. reflexivity. }
  destruct (apiUrl env) as [|d u] eqn:Eu.
  { left. eexists. unfold main, when. rewrite Ek, Eu. reflexivity. }
  right. destruct (fetch (the_request env)) as [res|e] eqn:Ef.
  - right. exists res. repeat split; try discriminate.
    apply main_resolved; [rewrite Ek | rewrite Eu | exact Ef]; discriminate.
  - left. exists e. repeat split; try discriminate.
    unfold main, when, await_fetch. rewrite Ek, Eu, Ef. reflexivity.
Qed.

(** X8. A response outside the success range ends the run at the status
    check, whatever else its body holds: for a body that parses (to [null]
    too) or is empty, [main] throws after its request the error naming the
    status, followed by the body's [message] when that is truthy, or, where
    [String] throws on that message, its [TypeError]; nothing is printed on
    standard output and the process exits with code 1. *)
Theorem failed_status_reported :
  forall env fetch parse res json,
    apiKey env <> [] -> apiUrl env <> [] ->
    fetch (the_request env) = Resolved res ->
    parse_body parse res = ([], Returned json) ->
    res_ok res = false ->
    let thrown :=
      match (if truthy (get_opt json (js "message"))
             then let* text := ToString (get_opt json (js "message")) in
                  Ok (js ": " ++ text)
             else Ok [])
      with
      | Ok msg =>
          Error (js "CloudMonitor compare failed (status "
                 ++ Number_toString (res_status res) ++ js ")" ++ msg)
      | Raise e => e
      end in
    main env fetch parse = ([fetch_call (the_request env)], Thrown thrown)
    /\ run env fetch parse
       = ([fetch_call (the_request env); console_error_stack thrown], 1%Z)
    /\ (thrown = TypeError \/ exists msg, thrown = Error msg).
Proof.
  intros env fetch parse res json Hk Hu Hf Hp Hok thrown.
  assert (E : main env fetch parse
              = ([fetch_call (the_request env)], Thrown thrown)).
  { rewrite (main_resolved env fetch parse res Hk Hu Hf). cbv zeta.
    rewrite Hp. change ([], Returned json) with (ret (A := value) json).
    rewrite bind_ret. unfold check_status, when. rewrite Hok. simpl negb.
    cbv iota. unfold thrown.
    replace (get json (js "message")) with (get_opt json (js "message"))
      by (destruct json; reflexivity).
    destruct (if truthy _ then _ else _); reflexivity. }
  split; [exact E|]. split; [unfold run; rewrite E; reflexivity|].
  unfold thrown. destruct (truthy _); [|right; eexists; reflexivity].
  destruct (ToString _) as [t|e] eqn:Et; simpl.
  - right; eexists; reflexivity.
  - left. exact (ToString_raise _ _ Et).
Qed.

Lemma failed_status_reported_witness :
  let env := [(js "INPUT_API_KEY", js "secret");
              (js "INPUT_API_URL", js "https://api.example")] in
  let res := {| res_status := 401; res_text := js "{}" |} in
  let parse := fun _ : jsstring =>
                 Some (JObj [(js "message", JStr (js "Unauthenticated."));
                             (js "risk", JStr (js "high"))]) in
  run env (fun _ => Resolved res) parse
  = ([fetch_call (the_request env);
      console_error_stack
        (Error (js "CloudMonitor compare failed (status 401): Unauthenticated."))],
     1%Z).
Proof.
  intros env res parse.
  refine (proj1 (proj2 (failed_status_reported env (fun _ => Resolved res)
                          parse res _ _ _ eq_refl eq_refl eq_refl)));
    discriminate.
Defined.

(** X9. When the request cannot be completed, the error of the transport
    is what the process reports: after the one request nothing is printed but
    that error's stack, and the exit code is 1. *)
Theorem transport_failure_reported :
  forall env fetch parse e,
    apiKey env <> [] -> apiUrl env <> [] ->
    fetch (the_request env) = Rejected e ->
    run env fetch parse
    = ([fetch_call (the_request env); console_error_stack e], 1%Z).
Proof.
  intros env fetch parse e Hk Hu Hf.
  unfold run, main, when, await_fetch.
  rewrite (nonempty_truthy _ Hk), (nonempty_truthy _ Hu), Hf. reflexivity.
Qed.

Lemma transport_failure_reported_witness :
  let env := [(js "INPUT_API_KEY", js "secret");
              (js "INPUT_API_URL", js "https://api.example")] in
  run env (fun _ => Rejected (Error (js "fetch failed"))) (fun _ => None)
  = ([fetch_call (the_request env);
      console_error_stack (Error (js "fetch failed"))], 1%Z).
Proof.
  intros env.
  refine (transport_failure_reported env _ _ _ _ _ eq_refl); discriminate.
Defined.

(** X10. A run sends at most one request, the one to the compare
    endpoint, and prints nothing before it: the trace either holds no request
    at all, or starts with that request and holds no other. *)
Theorem at_most_one_request :
  forall env fetch parse,
    Forall (fun e => is_request e = false) (fst (run env fetch parse))
    \/ exists rest,
        fst (run env fetch parse) = fetch_call (the_request env) :: rest
        /\ Forall (fun e => is_request e = false) rest
        /\ req_url (the_request env) = apiUrl env ++ js "/api/compare"
        /\ req_method (the_request env) = js "POST".
Proof.
  intros env fetch parse. unfold run.
  destruct (main_cases env fetch parse)
    as [(msg & E)|[(e & _ & _ & _ & E)|(res & _ & _ & _ & E)]]; rewrite E.
  - left. repeat constructor.
  - right. eexists. split; [reflexivity|]. repeat constructor.
  - right. cbv zeta.
    pose proof (after_fetch_emits (fun e => is_request e = false) env parse res
                  (fun _ => eq_refl) (fun _ => eq_refl)) as H.
    unfold emits in H.
    destruct (json <- parse_body parse res;; check_status res json;;
              report env json) as [t [a|c|e]]; simpl in *;
      eexists; (split; [reflexivity|]); repeat split; auto.
    apply Forall_app; split; [exact H | repeat constructor].
Qed.
(** ** Exit codes and standard error *)

Lemma ends_well_quiet {A} (m : M A) :
  quiet (fst m) -> no_exit m -> ends_well m.
Proof.
  intros Hq Hn. unfold ends_well. destruct (snd m) as [a|c|e] eqn:E; auto.
  exfalso. exact (Hn c E).
Qed.

Lemma ends_well_bind {A B} (m : M A) (k : A -> M B) :
  quiet (fst m) -> no_exit m -> (forall a, ends_well (k a)) ->
  ends_well (bind m k).
Proof.
  intros Hq Hn Hk. destruct m as [t [a|c|e]]; simpl in *.
  - specialize (Hk a). unfold ends_well in *.
    destruct (k a) as [t' [b|c|e]]; simpl in *.
    + apply Forall_app; auto.
    + destruct Hk as [[-> Hk]|[-> (t0 & l & -> & Hk)]].
      * left. split; [reflexivity | apply Forall_app; auto].
      * right. split; [reflexivity|]. exists (t ++ t0), l.
        split; [apply app_assoc | apply Forall_app; auto].
    + apply Forall_app; auto.
  - exfalso. exact (Hn c eq_refl).
  - exact Hq.
Qed.

Lemma decide_ends_well env globalRisk : ends_well (decide env globalRisk).
Proof.
  rewrite decide_eq. unfold ends_well. destruct (rank_ge _ _); simpl.
  - right. split; [reflexivity|]. eexists [], _. split; [reflexivity | constructor].
  - left. split; [reflexivity | constructor].
Qed.

Lemma report_ends_well env json : ends_well (report env json).
Proof.
  unfold report.
  apply ends_well_bind; [apply emits_lift | apply no_exit_lift|]. intros riskv.
  apply ends_well_bind; [apply emits_lift | apply no_exit_lift|].
  intros globalRisk.
  apply ends_well_bind; [apply emits_lift | apply no_exit_lift|]. intros pairs0.
  apply ends_well_bind; [apply emits_lift | apply no_exit_lift|]. intros entries.
  apply ends_well_bind; [apply emits_lift | apply no_exit_lift|]. intros summary.
  apply ends_well_bind; [repeat constructor | apply no_exit_emit|]. intros _.
  apply ends_well_bind; [repeat constructor | apply no_exit_emit|]. intros _.
  apply ends_well_bind.
  - apply (emits_for_of (fun e => is_stderr e = false)). intros e.
    apply print_pair_emits. reflexivity.
  - apply no_exit_for_of. intros e. apply no_exit_print_pair.
  - intros _. apply decide_ends_well.
Qed.

Lemma main_ends_well env fetch parse : ends_well (main env fetch parse).
Proof.
  destruct (main_cases env fetch parse)
    as [(msg & E)|[(e & _ & _ & _ & E)|(res & _ & _ & _ & E)]]; rewrite E.
  - constructor.
  - repeat constructor.
  - cbv zeta.
    assert (H : ends_well (json <- parse_body parse res ;;
                           check_status res json ;; report env json)).
    { destruct (parse_body_silent parse res) as [Hs Hn].
      apply ends_well_bind; [rewrite Hs; constructor | exact Hn|]. intros json.
      destruct (check_status_silent res json) as [Hs' Hn'].
      apply ends_well_bind; [rewrite Hs'; constructor | exact Hn'|]. intros _.
      apply report_ends_well. }
    unfold ends_well in *.
    destruct (json <- parse_body parse res;; check_status res json;;
              report env json) as [t [a|c|e]]; simpl in *.
    + constructor; [reflexivity | exact H].
    + destruct H as [[-> H]|[-> (t0 & l & -> & H)]].
      * left. split; [reflexivity | constructor; [reflexivity | exact H]].
      * right. split; [reflexivity|].
        exists (fetch_call (the_request env) :: t0), l.
        split; [reflexivity | constructor; [reflexivity | exact H]].
    + constructor; [reflexivity | exact H].
Qed.

Lemma bind_returned_inv {A B} (m : M A) (k : A -> M B) (b : B) :
  snd (bind m k) = Returned b ->
  exists a, snd m = Returned a /\ snd (k a) = Returned b
            /\ fst (bind m k) = fst m ++ fst (k a).
Proof.
  destruct m as [t [a|c|e]]; simpl; try discriminate.
  destruct (k a) as [t' o] eqn:E; simpl. intros ->.
  exists a. rewrite E. auto.
Qed.

(** [main] ends in [process.exit] or in a throw, never by returning. *)
Lemma main_never_returns env fetch parse (a : unit) :
  snd (main env fetch parse) <> Returned a.
Proof.
  intros H. unfold main in H.
  apply bind_returned_inv in H as (_ & _ & H & _).
  apply bind_returned_inv in H as (_ & _ & H & _).
  apply bind_returned_inv in H as (res & _ & H & _).
  apply bind_returned_inv in H as (json & _ & H & _).
  apply bind_returned_inv in H as (_ & _ & H & _).
  unfold report in H.
  apply bind_returned_inv in H as (riskv & _ & H & _).
  apply bind_returned_inv in H as (globalRisk & _ & H & _).
  apply bind_returned_inv in H as (pairs0 & _ & H & _).
  apply bind_returned_inv in H as (entries & _ & H & _).
  apply bind_returned_inv in H as (summary & _ & H & _).
  apply bind_returned_inv in H as (_ & _ & H & _).
  apply bind_returned_inv in H as (_ & _ & H & _).
  apply bind_returned_inv in H as (_ & _ & H & _).
  rewrite decide_eq in H. destruct (rank_ge _ _); discriminate H.
Qed.

(** X11. Every run ends with exit code 0 or 1.  With code 0 nothing was
    written to standard error; with code 1 exactly one thing was, as the last
    event of the run: the threshold line or the stack of the caught
    error. *)
Theorem exit_code_and_stderr :
  forall env fetch parse,
    (snd (run env fetch parse) = 0%Z /\ quiet (fst (run env fetch parse)))
    \/ (snd (run env fetch parse) = 1%Z
        /\ exists t e,
            fst (run env fetch parse) = t ++ [e]
            /\ is_stderr e = true /\ quiet t).
Proof.
  intros env fetch parse.
  pose proof (main_ends_well env fetch parse) as H.
  pose proof (main_never_returns env fetch parse) as Hr.
  unfold run, ends_well in *.
  destruct (main env fetch parse) as [t [a|c|e]]; simpl in *.
  - exfalso. exact (Hr a eq_refl).
  - destruct H as [[-> H]|[-> (t0 & l & -> & H)]].
    + left. auto.
    + right. split; [reflexivity|]. exists t0, (console_error l). auto.
  - right. split; [reflexivity|]. exists t, (console_error_stack e). auto.
Qed.

Lemma failOn_low env :
  ~ spells (getInput env (js "fail_on") (js "high")) (js "high") ->
  ~ spells (getInput env (js "fail_on") (js "high")) (js "medium") ->
  failOn env = js "low".
Proof.
  intros Hh Hm. unfold failOn.
  destruct (normalize_text_level (getInput env (js "fail_on") (js "high")))
    as [E|[E|[E|[]]]]; symmetry in E.
  - apply normalize_text_spells in E; [contradiction | auto].
  - apply normalize_text_spells in E; [contradiction | auto].
  - exact E.
Qed.

(** X12. A [fail_on] input that spells neither "high" nor "medium" (a
    misspelt level, the empty string, "low" itself) makes the threshold
    "low", and then no run succeeds: the exit code is 1 whatever the API
    answers. *)
Theorem unknown_threshold_always_fails :
  forall env fetch parse,
    ~ spells (getInput env (js "fail_on") (js "high")) (js "high") ->
    ~ spells (getInput env (js "fail_on") (js "high")) (js "medium") ->
    failOn env = js "low" /\ snd (run env fetch parse) = 1%Z.
Proof.
  intros env fetch parse Hh Hm.
  pose proof (failOn_low env Hh Hm) as Hf. split; [exact Hf|].
  pose proof (main_never_returns env fetch parse) as Hr.
  unfold run. destruct (main env fetch parse) as [t [a|c|e]] eqn:E; simpl in *.
  - exfalso. exact (Hr a eq_refl).
  - destruct (main_exit _ _ _ _ _ E) as (res & json & _ & _ & t' & Hrep).
    destruct (report_exit _ _ _ _ Hrep)
      as (riskv & globalRisk & g & f & _ & Hn & Hg & Hfo & ->).
    rewrite Hf in Hfo. injection Hfo as <-.
    destruct (rank_defined _ (normalizeRisk_level _ _ Hn))
      as (g' & Hg' & Hb & _).
    rewrite Hg in Hg'. injection Hg' as <-.
    destruct (Z.leb_spec 1 g); [reflexivity | lia].
  - reflexivity.
Qed.

Lemma unknown_threshold_always_fails_witness :
  let env := [(js "INPUT_API_KEY", js "secret");
              (js "INPUT_API_URL", js "https://api.example");
              (js "INPUT_FAIL_ON", js "hihg")] in
  let res := {| res_status := 200; res_text := js "{}" |} in
  snd (run env (fun _ => Resolved res) (fun _ => Some (JObj []))) = 1%Z.
Proof.
  intros env res.
  refine (proj2 (unknown_threshold_always_fails env _ _ _ _));
    intros C; inversion C as [|? ? ? ? [E|E] C']; try discriminate E;
    inversion C' as [|? ? ? ? [E'|E'] C'']; try discriminate E';
    inversion C'' as [|? ? ? ? [E''|E''] _]; discriminate E''.
Defined.

(** X13. With annotation off, a run whose response has a success status
    and a body that is empty or parses to anything but [null], and in which
    no object has a property named [toString], always reaches the decision:
    the top-level risk is normalized, and the exit code is 1 when its rank is
    at least that of the threshold, and 0 otherwise. *)
Theorem decision_reached_without_annotation :
  forall env fetch parse res json,
    apiKey env <> [] -> apiUrl env <> [] ->
    fetch (the_request env) = Resolved res ->
    parse_body parse res = ([], Returned json) ->
    res_ok res = true ->
    annotate env = false ->
    json <> JNull -> json <> JUndefined ->
    plain json = true ->
    exists globalRisk,
      normalizeRisk (get json (js "risk")) = Ok globalRisk
      /\ snd (run env fetch parse)
         = (if rank_ge (severityRank globalRisk) (severityRank (failOn env))
            then 1 else 0)%Z.
Proof.
  intros env fetch parse res json Hk Hu Hf Hp Hok Ha Hn Hd Hpl.
  destruct (report_decides env json Ha Hn Hd Hpl) as (g & Hg & Hr).
  exists g. split; [exact Hg|]. unfold run.
  rewrite (main_report env fetch parse res json Hk Hu Hf Hp Hok), Hr.
  reflexivity.
Qed.

Lemma decision_reached_without_annotation_witness :
  let env := [(js "INPUT_API_KEY", js "secret");
              (js "INPUT_API_URL", js "https://api.example");
              (js "INPUT_ANNOTATE", js "False")] in
  let res := {| res_status := 200; res_text := numeric_message_text |} in
  exists globalRisk,
    normalizeRisk (get numeric_message_json (js "risk")) = Ok globalRisk
    /\ snd (run env (fun _ => Resolved res) (fun _ => Some numeric_message_json))
       = (if rank_ge (severityRank globalRisk) (severityRank (failOn env))
          then 1 else 0)%Z.
Proof.
  intros env res.
  refine (decision_reached_without_annotation env (fun _ => Resolved res)
            (fun _ => Some numeric_message_json) res numeric_message_json
            _ _ eq_refl eq_refl eq_refl eq_refl _ _ eq_refl); discriminate.
Defined.
(** ** The summary and the detail blocks *)

Lemma bump_level_sum (r : jsstring) (c : counters) :
  In r levels ->
  (count_high (bump r c) + count_medium (bump r c) + count_low (bump r c)
   = count_high c + count_medium c + count_low c + 1
   /\ count_high c <= count_high (bump r c)
   /\ count_medium c <= count_medium (bump r c)
   /\ count_low c <= count_low (bump r c))%Z.
Proof.
  intros [<-|[<-|[<-|[]]]]; unfold bump; simpl; lia.
Qed.

Lemma tally_all_invariant (entries : list (jsstring * value))
      (c c' : counters) (n n' : Z) :
  tally_all entries (c, n) = Ok (c', n') ->
  (count_high c' + count_medium c' + count_low c'
   = count_high c + count_medium c + count_low c
     + Z.of_nat (List.length entries)
   /\ count_high c <= count_high c'
   /\ count_medium c <= count_medium c'
   /\ count_low c <= count_low c'
   /\ n <= n')%Z.
Proof.
  revert c n. induction entries as [|e l IH]; intros c n; simpl.
  - intros H. injection H as <- <-. lia.
  - rewrite tally_adds. cbn [fst snd].
    destruct (normalizeRisk _) as [r|x] eqn:Er; simpl; [|discriminate].
    intros H. specialize (IH _ _ H).
    pose proof (bump_level_sum _ c (normalizeRisk_level _ _ Er)) as Hb.
    rewrite Zpos_P_of_succ_nat. lia.
Qed.

(** X14. When the first loop completes, the three counts per level add up
    to the number of pairs printed as [pairs=], whatever the pairs hold; no
    count and no issue total is negative. *)
Theorem summary_counts_add_up :
  forall (entries : list (jsstring * value)) counts totalIssues,
    tally_all entries (no_counts, 0%Z) = Ok (counts, totalIssues) ->
    (count_high counts + count_medium counts + count_low counts
     = Z.of_nat (List.length entries)
     /\ 0 <= count_high counts /\ 0 <= count_medium counts
     /\ 0 <= count_low counts /\ 0 <= totalIssues)%Z.
Proof.
  intros entries counts totalIssues H.
  pose proof (tally_all_invariant entries no_counts counts 0%Z totalIssues H)
    as Hi.
  change (count_high no_counts) with 0%Z in Hi.
  change (count_medium no_counts) with 0%Z in Hi.
  change (count_low no_counts) with 0%Z in Hi. lia.
Qed.

Lemma summary_counts_add_up_witness :
  let entries :=
    [(js "a", JObj [(js "risk", JStr (js "HIGH"))]);
     (js "b", JNull);
     (js "c", JObj [(js "issues", JArr [JNull; JNull])])] in
  let counts := {| count_high := 1; count_medium := 0; count_low := 2 |} in
  tally_all entries (no_counts, 0%Z) = Ok (counts, 2%Z)
  /\ (count_high counts + count_medium counts + count_low counts
      = Z.of_nat (List.length entries))%Z.
Proof.
  intros entries counts. split; [reflexivity|].
  exact (proj1 (summary_counts_add_up entries counts 2%Z eq_refl)).
Defined.

Lemma print_issue_lines env pairName r issue :
  snd (print_issue env pairName r issue) = Returned tt ->
  Z.of_nat (List.length (fst (print_issue env pairName r issue)))
  = (if annotate env then 2 else 1)%Z.
Proof.
  unfold print_issue, when.
  destruct (issueToMessage issue) as [m|e]; [|discriminate].
  rewrite bind_lift_ok.
  destruct (ToString m) as [t|e]; [|discriminate].
  rewrite bind_lift_ok, bind_emit.
  destruct (annotate env); [|reflexivity].
  destruct (inferSeverityFromIssue issue (JStr r)); [reflexivity|].
  discriminate.
Qed.

Lemma print_issues_lines env pairName r (issues : list value) :
  snd (for_of issues (print_issue env pairName r)) = Returned tt ->
  Z.of_nat (List.length (fst (for_of issues (print_issue env pairName r))))
  = ((if annotate env then 2 else 1) * Z.of_nat (List.length issues))%Z.
Proof.
  induction issues as [|i l IH]; intros H; [simpl; lia|].
  cbn [for_of] in *.
  apply bind_returned_inv in H as ([] & H1 & H2 & ->).
  rewrite length_app, Nat2Z.inj_add, (print_issue_lines _ _ _ _ H1), (IH H2).
  cbn [List.length]. rewrite Nat2Z.inj_succ. lia.
Qed.

Lemma print_pair_lines env entry :
  snd (print_pair env entry) = Returned tt ->
  exists r,
    normalizeRisk (get_opt (snd entry) (js "risk")) = Ok r
    /\ Z.of_nat (List.length (fst (print_pair env entry)))
       = ((if has_issues entry then 1 else 0)
          + (if annotate env then 2 else 1)
            * Z.of_nat (List.length (pair_issues (snd entry))))%Z.
Proof.
  unfold print_pair, has_issues.
  destruct (normalizeRisk _) as [r|e]; [|discriminate].
  rewrite bind_lift_ok. fold (pair_issues (snd entry)).
  intros H. exists r. split; [reflexivity|].
  destruct (pair_issues (snd entry)) as [|i l]; [simpl; lia|].
  apply bind_returned_inv in H as ([] & _ & H & ->).
  rewrite length_app, Nat2Z.inj_add, (print_issues_lines _ _ _ _ H).
  simpl fst. simpl List.length at 1. lia.
Qed.

Lemma detail_lines env (entries : list (jsstring * value)) (c : counters) (n : Z) :
  snd (for_of entries (print_pair env)) = Returned tt ->
  exists counts total,
    tally_all entries (c, n) = Ok (counts, total)
    /\ Z.of_nat (List.length (fst (for_of entries (print_pair env))))
       = (Z.of_nat (List.length (filter has_issues entries))
          + (if annotate env then 2 else 1) * (total - n))%Z.
Proof.
  revert c n. induction entries as [|e l IH]; intros c n H.
  - exists c, n. split; [reflexivity | simpl; lia].
  - cbn [for_of filter tally_all] in *.
    apply bind_returned_inv in H as ([] & H1 & H2 & ->).
    destruct (print_pair_lines _ _ H1) as (r & Hr & Hl).
    rewrite tally_adds, Hr. cbn [rbind fst snd].
    destruct (IH (bump r c)
                (n + Z.of_nat (List.length (pair_issues (snd e))))%Z H2)
      as (counts & total & Ht & Hlen).
    exists counts, total. split; [exact Ht|].
    rewrite length_app, Nat2Z.inj_add, Hl, Hlen.
    destruct (has_issues e); cbn [List.length]; rewrite ?Nat2Z.inj_succ; lia.
Qed.

(** X15. When the detail loop runs to its end, the first loop had
    completed too, and the output of the detail loop has one header line for
    each pair that has issues and, for every issue counted in the summary's
    total, one message line, and one annotation line more when annotation is
    on. *)
Theorem detail_lines_match_summary :
  forall env (entries : list (jsstring * value)),
    snd (for_of entries (print_pair env)) = Returned tt ->
    exists counts totalIssues,
      tally_all entries (no_counts, 0%Z) = Ok (counts, totalIssues)
      /\ Z.of_nat (List.length (fst (for_of entries (print_pair env))))
         = (Z.of_nat (List.length (filter has_issues entries))
            + (if annotate env then 2 else 1) * totalIssues)%Z.
Proof.
  intros env entries H.
  destruct (detail_lines env entries no_counts 0%Z H)
    as (counts & total & Ht & Hl).
  exists counts, total. split; [exact Ht|]. rewrite Hl. lia.
Qed.

Lemma detail_lines_match_summary_witness :
  let env := [(js "INPUT_ANNOTATE", js "true")] in
  let entries :=
    [(js "a", JObj [(js "issues", JArr [])]);
     (js "b", JObj [(js "issues", JArr [JStr (js "x mismatch"); JStr (js "y")])])] in
  exists counts totalIssues,
    tally_all entries (no_counts, 0%Z) = Ok (counts, totalIssues)
    /\ Z.of_nat (List.length (fst (for_of entries (print_pair env))))
       = (Z.of_nat (List.length (filter has_issues entries))
          + 2 * totalIssues)%Z.
Proof.
  intros env entries.
  exact (detail_lines_match_summary env entries eq_refl).
Defined.

Lemma startsWith_app (p s : jsstring) : startsWith (p ++ s) p = true.
Proof.
  induction p as [|c p IH]; simpl; [destruct s; reflexivity|].
  now rewrite N.eqb_refl.
Qed.

Lemma report_plain_calls env json :
  annotate env = false -> emits plain_call (report env json).
Proof.
  intros Ha. unfold report.
  apply emits_bind; [apply emits_lift|]. intros riskv.
  apply emits_bind; [apply emits_lift|]. intros globalRisk.
  apply emits_bind; [apply emits_lift|]. intros pairs0.
  apply emits_bind; [apply emits_lift|]. intros entries.
  apply emits_bind; [apply emits_lift|]. intros summary.
  apply emits_bind; [apply emits_emit; unfold plain_call;
        rewrite startsWith_app, ?orb_true_r; reflexivity|]. intros _.
  apply emits_bind; [apply emits_emit; unfold plain_call;
        rewrite startsWith_app, ?orb_true_r; reflexivity|]. intros _.
  apply emits_bind.
  - apply emits_for_of. intros e. unfold print_pair.
    apply emits_bind; [apply emits_lift|]. intros r.
    destruct (if isArray _ then _ else _); [constructor|].
    apply emits_bind; [apply emits_emit; unfold plain_call;
        rewrite startsWith_app, ?orb_true_r; reflexivity|]. intros _.
    apply emits_for_of. intros issue. unfold print_issue. rewrite Ha.
    apply emits_bind; [apply emits_lift|]. intros msg.
    apply emits_bind; [apply emits_lift|]. intros text.
    apply emits_bind; [apply emits_emit; unfold plain_call;
        rewrite startsWith_app, ?orb_true_r; reflexivity | intros _; constructor].
  - intros _. rewrite decide_eq.
    destruct (rank_ge _ _); [apply emits_emit; exact I | constructor].
Qed.

(** X16. With annotation off, the script makes no annotation call: every
    argument it passes to [console.log] starts as the first summary line
    ("CloudMonitor baseline="), the second ("Pairs: "), a pair header (a line
    break) or an issue line ("  - ") does, whatever the issues hold. *)
Theorem annotation_off_prints_none :
  forall env fetch parse,
    annotate env = false ->
    Forall plain_call (fst (run env fetch parse)).
Proof.
  intros env fetch parse Ha. unfold run.
  destruct (main_cases env fetch parse)
    as [(msg & E)|[(e & _ & _ & _ & E)|(res & _ & _ & _ & E)]]; rewrite E.
  - repeat constructor.
  - repeat constructor.
  - cbv zeta.
    assert (H : emits plain_call
                  (json <- parse_body parse res ;;
                   check_status res json ;; report env json)).
    { apply emits_bind.
      { unfold emits. rewrite (proj1 (parse_body_silent parse res)). constructor. }
      intros json. apply emits_bind.
      { unfold emits. rewrite (proj1 (check_status_silent res json)). constructor. }
      intros _. apply report_plain_calls, Ha. }
    unfold emits in H.
    destruct (json <- parse_body parse res;; check_status res json;;
              report env json) as [t [a|c|e]]; simpl in *;
      try (constructor; [exact I | exact H]).
    constructor; [exact I|]. apply Forall_app; split; [exact H|].
    repeat constructor.
Qed.

Lemma annotation_off_prints_none_witness :
  let env := [(js "INPUT_API_KEY", js "secret");
              (js "INPUT_API_URL", js "https://api.example");
              (js "INPUT_ANNOTATE", js "false")] in
  let res := {| res_status := 200; res_text := example_text |} in
  Forall plain_call
    (fst (run env (fun _ => Resolved res) (fun _ => Some example_json))).
Proof.
  intros env res.
  exact (annotation_off_prints_none env (fun _ => Resolved res)
           (fun _ => Some example_json) eq_refl).
Defined.
(** ** Edge cases of the inputs *)

Lemma trimStart_nil_iff (p : jsstring) :
  trimStart p = [] <-> forallb is_space p = true.
Proof.
  induction p as [|c p IH]; simpl; [tauto|].
  destruct (is_space c); simpl; [exact IH|]. split; discriminate.
Qed.

Lemma trim_nil_iff (p : jsstring) :
  trim p = [] <-> forallb is_space p = true.
Proof.
  split.
  - intros H. destruct (trim_spec p) as [(a & b & E & Ha & Hb) _].
    rewrite H in E. simpl in E. rewrite E, forallb_app, Ha, Hb. reflexivity.
  - intros H. unfold trim. apply trimStart_nil_iff in H. rewrite H. reflexivity.
Qed.

Lemma split_blank_iff (s : jsstring) :
  Forall (fun p => forallb is_space p = true) (split 44 s)
  <-> forallb (fun c => is_space c || (c =? 44)) s = true.
Proof.
  induction s as [|c s IH]; simpl.
  - split; [reflexivity | intros _; repeat constructor].
  - destruct (N.eqb_spec c 44) as [->|Hc].
    + simpl. rewrite <- IH. split.
      * intros H. inversion H; assumption.
      * intros H. constructor; [reflexivity | exact H].
    + rewrite orb_false_r, andb_true_iff, <- IH.
      pose proof (split_nonempty 44 s) as Hn.
      destruct (split 44 s) as [|p ps]; [contradiction|]. split.
      * intros H. inversion H as [|? ? Hp Hps]; subst. simpl in Hp.
        apply andb_true_iff in Hp as [Hc' Hp]. split; [exact Hc'|].
        constructor; assumption.
      * intros [Hc' H]. inversion H as [|? ? Hp Hps]; subst.
        constructor; [simpl; rewrite Hc', Hp; reflexivity | exact Hps].
Qed.

Lemma filter_trim_nil (l : list jsstring) :
  filter (fun s => truthy (JStr s)) (map trim l) = []
  <-> Forall (fun p => forallb is_space p = true) l.
Proof.
  induction l as [|p l IH]; simpl.
  - split; [constructor | reflexivity].
  - destruct (trim p) as [|c t] eqn:E; simpl.
    + rewrite IH. split.
      * intros H. constructor; [apply trim_nil_iff, E | exact H].
      * intros H. inversion H; assumption.
    + split; [discriminate|]. intros H. inversion H as [|? ? Hp _]; subst.
      apply trim_nil_iff in Hp. congruence.
Qed.

(** X17. [parseCsv] returns no entry exactly when its input holds nothing
    but commas and white space; so an [environments] input that is empty or
    blank sends an empty list of environments, not the default one. *)
Theorem parseCsv_empty_iff_blank :
  (forall input,
      parseCsv input = []
      <-> forallb (fun c => is_space c || (c =? 44)) input = true)
  /\ (forall env,
         env_lookup (js "INPUT_ENVIRONMENTS") env = Some [] ->
         environments env = [])
  /\ (forall env,
         env_lookup (js "INPUT_ENVIRONMENTS") env = None ->
         environments env = [js "staging"; js "production"]).
Proof.
  split; [|split].
  - intros input. unfold parseCsv. rewrite filter_trim_nil.
    apply split_blank_iff.
  - intros env H. unfold environments, getInput.
    change (js "INPUT_" ++ toUpperCase (replace_spaces (js "environments")))
      with (js "INPUT_ENVIRONMENTS").
    rewrite H. reflexivity.
  - intros env H. unfold environments, getInput.
    change (js "INPUT_" ++ toUpperCase (replace_spaces (js "environments")))
      with (js "INPUT_ENVIRONMENTS").
    rewrite H. reflexivity.
Qed.

Lemma parseCsv_empty_iff_blank_witness :
  parseCsv (js " , ,,  ") = []
  /\ environments [(js "INPUT_ENVIRONMENTS", [])] = [].
Proof.
  split.
  - apply (proj1 parseCsv_empty_iff_blank). reflexivity.
  - apply (proj1 (proj2 parseCsv_empty_iff_blank)). reflexivity.
Defined.

(** X18. A body without [pairs], or whose [pairs] is falsy, is reported as
    having no pairs: for a parsed body other than [null] whose top-level risk
    is normalized, the report is the two summary lines with [pairs=0] and
    [issues=0] and all counts 0, followed by the decision on that risk. *)
Theorem missing_pairs_reported_empty :
  forall env json globalRisk,
    json <> JNull -> json <> JUndefined ->
    truthy (get json (js "pairs")) = false ->
    normalizeRisk (get json (js "risk")) = Ok globalRisk ->
    report env json
    = ([console_log (js "CloudMonitor baseline=" ++ baseline env ++ js " risk="
                     ++ toUpperCase globalRisk ++ js " pairs=0 issues=0");
        console_log (js "Pairs: 0 HIGH / 0 MED / 0 LOW")]
       ++ fst (decide env globalRisk),
       snd (decide env globalRisk)).
Proof.
  intros env json globalRisk Hn Hu Hp Hg. unfold report.
  assert (Hm : forall k, member json k = Ok (get json k))
    by (intros k; destruct json; try reflexivity; contradiction).
  rewrite !Hm, bind_lift_ok, Hg, !bind_lift_ok. unfold or_else. rewrite Hp.
  simpl Object_entries. rewrite bind_lift_ok. simpl tally_all.
  rewrite bind_lift_ok.
  destruct (decide env globalRisk) as [t o]. reflexivity.
Qed.

Lemma missing_pairs_reported_empty_witness :
  let env := [(js "INPUT_FAIL_ON", js "medium")] in
  report env (JObj [(js "risk", JStr (js "Medium")); (js "pairs", JNull)])
  = ([console_log (js "CloudMonitor baseline=production risk=MEDIUM pairs=0 issues=0");
      console_log (js "Pairs: 0 HIGH / 0 MED / 0 LOW");
      console_error (js "CloudMonitor: failing because risk=MEDIUM >= fail_on=MEDIUM")],
     Exited 1%Z).
Proof.
  intros env.
  refine (missing_pairs_reported_empty env
            (JObj [(js "risk", JStr (js "Medium")); (js "pairs", JNull)])
            (js "medium") _ _ eq_refl eq_refl); discriminate.
Defined.

(** X19. A pair whose [issues] is absent or no array, and whose risk is
    normalized to the level [r], adds nothing to the issue total, prints no
    detail block and no annotation, and is counted once, under [r], in the
    counts per level; so the totals and the detail output of the two loops
    are those of the run without the pair, and the counts those with [r]
    counted once more. *)
Theorem pair_without_issue_array :
  forall env (name : jsstring) (data : value) (r : jsstring),
    isArray (get_opt data (js "issues")) = false ->
    normalizeRisk (get_opt data (js "risk")) = Ok r ->
    (forall acc, tally acc (name, data) = Ok (bump r (fst acc), snd acc))
    /\ print_pair env (name, data) = ([], Returned tt)
    /\ (forall c,
           count_of r (bump r c) = (count_of r c + 1)%Z
           /\ forall lvl, lvl <> r -> count_of lvl (bump r c) = count_of lvl c)
    /\ (forall before after counts total,
           tally_all (before ++ after) (no_counts, 0%Z) = Ok (counts, total) ->
           tally_all (before ++ (name, data) :: after) (no_counts, 0%Z)
           = Ok (bump r counts, total))
    /\ (forall before after,
           for_of (before ++ (name, data) :: after) (print_pair env)
           = for_of (before ++ after) (print_pair env)).
Proof.
  intros env name data r H Hr.
  assert (Ht : forall acc, tally acc (name, data) = Ok (bump r (fst acc), snd acc)).
  { intros acc. unfold tally. cbn [snd fst]. rewrite Hr, H. simpl.
    now rewrite Z.add_0_r. }
  assert (Hp : print_pair env (name, data) = ([], Returned tt)).
  { unfold print_pair. cbn [snd fst]. rewrite Hr, bind_lift_ok, H. reflexivity. }
  split; [exact Ht|]. split; [exact Hp|].
  split; [intros c; apply bump_counts_once, (normalizeRisk_level _ _ Hr)|].
  split.
  - intros before after counts total. rewrite !tally_all_app.
    destruct (tally_all before (no_counts, 0%Z)) as [[c n]|x]; simpl;
      [|discriminate].
    rewrite Ht. cbn [rbind fst snd]. apply tally_all_bump.
  - intros before after. rewrite !for_of_app. cbn [for_of]. rewrite Hp.
    change ([], Returned tt) with (ret tt). now rewrite bind_ret.
Qed.

Lemma pair_without_issue_array_witness :
  let env := [(js "INPUT_ANNOTATE", js "true")] in
  let data := JObj [(js "risk", JStr (js "medium")); (js "issues", JStr (js "none"))] in
  tally (no_counts, 4%Z) (js "staging", data)
  = Ok ({| count_high := 0; count_medium := 1; count_low := 0 |}, 4%Z)
  /\ print_pair env (js "staging", data) = ([], Returned tt).
Proof.
  intros env data.
  pose proof (pair_without_issue_array env (js "staging") data (js "medium")
                eq_refl eq_refl) as H.
  split; [exact (proj1 H (no_counts, 4%Z)) | exact (proj1 (proj2 H))].
Defined.
